(** * readup: a shallow embedding of [main.go]

    readup keeps a README up to date with command output: it scans the
    file for fenced code blocks whose first inner line is [> command],
    runs the command on a pseudo-terminal and puts the output into the
    block, then shows a diff and asks before overwriting the file.

    The embedding follows [main.go] function by function:
    [greyFormat], [diffFormat], [execCommand], [readup] (its loop is
    [scanLine] and [scanLoop]), [writeFile] (which nothing calls),
    [writeTempFile] and [main].

    - A Go string is a string of bytes; an [int] is a [Z]; a slice is
      a list, and indexing or slicing out of range is a panic.
    - The calls into Go's library are modelled in modules named after
      the packages, from the library's documented behaviour.
    - The program runs in the monad [IO]: a value, an error or a panic,
      and the [World] after it.  The world holds the files, what was
      printed, and the commands the program asked to have started, in
      order.
    - What the program asks of its environment is a [Host] record:
      arguments, standard input, whether a pseudo-terminal can be had,
      the terminal of each child process, the name of the temporary
      file, failures of [cp] and of removing a file.
    - A child process is a function of its command line.  Its terminal
      yields a finite list of reads and then the end of the data; it
      does not touch the files of the model.  For this reason the lines
      of the document are taken from the scanner at once, before any
      command runs.
    - A write to a file that was just created goes through in full.
      [fmt.Fprintf] returns a count and an error, which [writeFile] and
      [writeTempFile] drop (lines 163 and 176): a write that fails or
      stops short is not in the model, and where a statement gives the
      content of the scratch file as the scanned document it does so
      for a write that went through. *)

From Stdlib Require Import ZArith Lia Ascii String List.
From stdpp Require Import base option list strings gmap.

Local Open Scope string_scope.
Local Open Scope list_scope.
Local Open Scope Z_scope.

(** ** Bytes and strings

    A Go [string] is a sequence of bytes: [String.string]. *)

Definition LF : ascii := "010"%char.
Definition CR : ascii := "013"%char.
Definition ESC : ascii := "027"%char.
Definition nl : string := String LF EmptyString.
Definition cr : string := String CR EmptyString.
Definition fence : string := "```".

(** [len] is Go's builtin on strings and slices; a Go [int] is a [Z]. *)
Definition len (s : string) : Z := Z.of_nat (String.length s).
Definition llen {A} (l : list A) : Z := Z.of_nat (List.length l).

(** [s[lo:]]: panics (here [None]) when [lo] is out of range. *)
Fixpoint string_drop (n : nat) (s : string) : string :=
  match n, s with
  | S k, String _ s' => string_drop k s'
  | _, _ => s
  end.

Definition str_from (s : string) (lo : Z) : option string :=
  if (0 <=? lo) && (lo <=? len s) then Some (string_drop (Z.to_nat lo) s) else None.

(** [l[:hi]] on a slice.  Go allows [hi] up to the capacity; the model
    stops at the length, which is all the program ever asks for
    (see [blockStart_in_range]). *)
Definition slice_to {A} (l : list A) (hi : Z) : option (list A) :=
  if (0 <=? hi) && (hi <=? llen l) then Some (take (Z.to_nat hi) l) else None.

(** ** Package [strings] *)

Module strings.

Definition HasPrefix (s prefix : string) : bool := String.prefix prefix s.

Definition Join (elems : list string) (sep : string) : string :=
  String.concat sep elems.

(** [genSplit s sep skip] cuts [s] at every occurrence of the non-empty
    separator, left to right; [skip] counts the bytes of a separator
    still to be passed over. *)
Fixpoint genSplit (s sep : string) (skip : nat) : list string :=
  match s with
  | EmptyString => [EmptyString]
  | String c s' =>
      match skip with
      | S k => genSplit s' sep k
      | O =>
          if String.prefix sep s
          then EmptyString :: genSplit s' sep (String.length sep - 1)
          else match genSplit s' sep 0 with
               | h :: t => String c h :: t
               | [] => [String c EmptyString]
               end
      end
  end.

(** With an empty separator Go explodes the string into its UTF-8
    sequences; the model explodes it into bytes. *)
Definition Split (s sep : string) : list string :=
  match sep with
  | EmptyString => (fun c => String c EmptyString) <$> list_ascii_of_string s
  | _ => genSplit s sep 0
  end.

(** [Replace s old new n] for a non-empty [old]: the first [n]
    occurrences, all of them when [n < 0]. *)
Fixpoint genReplace (s old new : string) (skip : nat) (limit : option nat) : string :=
  match s with
  | EmptyString => EmptyString
  | String c s' =>
      match skip with
      | S k => genReplace s' old new k limit
      | O =>
          let allowed := match limit with Some O => false | _ => true end in
          if allowed && String.prefix old s
          then new +:+ genReplace s' old new (String.length old - 1) (Nat.pred <$> limit)
          else String c (genReplace s' old new 0 limit)
      end
  end.

Definition Replace (s old new : string) (n : Z) : string :=
  genReplace s old new 0 (if n <? 0 then None else Some (Z.to_nat n)).

(** [ToLower] on the ASCII letters.  Go also maps letters outside
    ASCII; none of them becomes a "y", the one string the program
    compares the result with. *)
Definition lower (c : ascii) : ascii :=
  let n := nat_of_ascii c in
  if ((65 <=? n) && (n <=? 90))%nat then ascii_of_nat (n + 32) else c.

Fixpoint ToLower (s : string) : string :=
  match s with
  | EmptyString => EmptyString
  | String c s' => String (lower c) (ToLower s')
  end.

(** [unicode.IsSpace] on UTF-8: the width in bytes of a white-space
    character at the head of [s], 0 when there is none.  The characters
    are tab to carriage return, space, U+0085, U+00A0, U+1680, U+2000 to
    U+200A, U+2028, U+2029, U+202F, U+205F and U+3000. *)
Definition spaceWidth (s : string) : nat :=
  match s with
  | EmptyString => 0
  | String c1 r1 =>
      let n1 := nat_of_ascii c1 in
      if (((9 <=? n1) && (n1 <=? 13)) || (n1 =? 32))%nat then 1%nat
      else
        match r1 with
        | EmptyString => 0
        | String c2 r2 =>
            let n2 := nat_of_ascii c2 in
            if ((n1 =? 194) && ((n2 =? 133) || (n2 =? 160)))%nat then 2%nat
            else
              match r2 with
              | EmptyString => 0
              | String c3 _ =>
                  let n3 := nat_of_ascii c3 in
                  if ((n1 =? 225) && (n2 =? 154) && (n3 =? 128))%nat then 3%nat
                  else if ((n1 =? 226) && (n2 =? 128) &&
                           (((128 <=? n3) && (n3 <=? 138)) || (n3 =? 168) ||
                            (n3 =? 169) || (n3 =? 175)))%nat then 3%nat
                  else if ((n1 =? 226) && (n2 =? 129) && (n3 =? 159))%nat then 3%nat
                  else if ((n1 =? 227) && (n2 =? 128) && (n3 =? 128))%nat then 3%nat
                  else 0%nat
              end
        end
  end.

(** [skip] counts the bytes of a white-space character still to drop. *)
Fixpoint trimLeft (s : string) (skip : nat) : string :=
  match s with
  | EmptyString => EmptyString
  | String _ rest =>
      match skip with
      | S k => trimLeft rest k
      | O =>
          match spaceWidth s with
          | O => s
          | S k => trimLeft rest k
          end
      end
  end.

Definition TrimLeft (s : string) : string := trimLeft s 0.

(** What is left of [s] when the white space at its end is taken off:
    bytes are kept as long as something other than white space
    follows. *)
Fixpoint TrimRight (s : string) : string :=
  match s with
  | EmptyString => EmptyString
  | String c rest =>
      match TrimLeft s with
      | EmptyString => EmptyString
      | _ => String c (TrimRight rest)
      end
  end.

Definition TrimSpace (s : string) : string := TrimRight (TrimLeft s).

End strings.

(** ** Errors and results

    A Go [error] value.  [io.EOF] and [bufio.ErrTooLong] are the two
    sentinels the program or its libraries compare against. *)

Inductive error : Type :=
| io_EOF
| bufio_ErrTooLong
| errors_New (msg : string).

Definition error_Error (e : error) : string :=
  match e with
  | io_EOF => "EOF"
  | bufio_ErrTooLong => "bufio.Scanner: token too long"
  | errors_New msg => msg
  end.

Definition is_EOF (e : error) : bool :=
  match e with io_EOF => true | _ => false end.

(** What a library call hands back: a value or an error. *)
Inductive result (A : Type) : Type :=
| Ok (a : A)
| Err (e : error).
Arguments Ok {A} a.
Arguments Err {A} e.

(** ** The host

    A file delivers [data] and then ends, with [fault] when reading it
    breaks off ([None]: plain end of file).  A directory is a file that
    opens and whose first read fails. *)
Record File : Type := { data : string; fault : option error }.

Definition regular (content : string) : File :=
  {| data := content; fault := None |}.

(** [exec.Cmd], as far as the program fills it in. *)
Record Cmd : Type := { Path : string; Args : list string; Env : list string }.

Record Winsize : Type := { Rows : Z; Cols : Z }.

(** One call of [Read] on the pseudo-terminal: the bytes placed in the
    buffer ([n] is their number) and the error. *)
Record ReadResult : Type := { chunk : string; rerr : option error }.

(** A started child: what successive reads of its terminal return
    (after the list: [0, io.EOF]), and the status it exits with. *)
Record Child : Type := { reads : list ReadResult; exitStatus : Z }.

Record World : Type := {
  fs : gmap string File;
  stdout : string;
  stderr : string;
  (* every command handed to [pty.StartWithSize] or to [Cmd.Run], in
     order: what the program asked to have started, whether or not a
     process came of it *)
  spawned : list Cmd
}.

(** The oracles: everything the program asks of its environment.
    Child processes are functions of their command line: they do not
    touch the files of the model. *)
Record Host : Type := {
  os_Args : list string;
  os_Stdin : string;
  os_Environ : list string;
  os_Getenv : string -> string;
  (* [pty.Open] and the setting of the size: the error when no
     pseudo-terminal can be had for the command *)
  pty_Open : Cmd -> Winsize -> option error;
  (* [Cmd.Start] on the terminal: the child, or the error when the
     command cannot be started (no such program, ...) *)
  pty_start : Cmd -> Winsize -> result Child;
  (* the name [ioutil.TempFile] picks, given the files that exist *)
  temp_name : gmap string File -> result string;
  (* an external utility that cannot start or exits non-zero *)
  run_fault : Cmd -> option error;
  remove_fault : string -> option error
}.

(** ** The monad of the program: a result, an error or a panic, and the
    world after it. *)

Inductive outcome (A : Type) : Type :=
| Return (a : A)
| Failed (e : error)
| Panicked (msg : string).
Arguments Return {A} a.
Arguments Failed {A} e.
Arguments Panicked {A} msg.

Definition IO (A : Type) : Type := World -> outcome A * World.

Definition ret {A} (a : A) : IO A := fun w => (Return a, w).

Definition raise {A} (e : error) : IO A := fun w => (Failed e, w).

Definition panic {A} (msg : string) : IO A := fun w => (Panicked msg, w).

Definition bind {A B} (m : IO A) (k : A -> IO B) : IO B :=
  fun w =>
    match m w with
    | (Return a, w') => k a w'
    | (Failed e, w') => (Failed e, w')
    | (Panicked msg, w') => (Panicked msg, w')
    end.

Notation "x <- m ;; k" := (bind m (fun x => k))
  (at level 100, m at next level, right associativity).
Notation "m ;;; k" := (bind m (fun _ => k))
  (at level 100, right associativity).

Definition lift {A} (r : result A) : IO A :=
  match r with Ok a => ret a | Err e => raise e end.

Definition index {A} (l : list A) (i : nat) : IO A :=
  match l !! i with
  | Some x => ret x
  | None => panic "index out of range"
  end.

Definition fmt_Printf (s : string) : IO unit :=
  fun w => (Return tt,
            {| fs := fs w; stdout := stdout w +:+ s; stderr := stderr w;
               spawned := spawned w |}).

Definition fmt_Print (s : string) : IO unit := fmt_Printf s.

Definition fmt_Println (s : string) : IO unit := fmt_Printf (s +:+ nl).

(** [fmt.Fprintf(os.Stderr, ...)] *)
Definition fmt_Eprintf (s : string) : IO unit :=
  fun w => (Return tt,
            {| fs := fs w; stdout := stdout w; stderr := stderr w +:+ s;
               spawned := spawned w |}).

Definition set_fs (f : gmap string File -> gmap string File) : IO unit :=
  fun w => (Return tt,
            {| fs := f (fs w); stdout := stdout w; stderr := stderr w;
               spawned := spawned w |}).

Definition log_spawn (c : Cmd) : IO unit :=
  fun w => (Return tt,
            {| fs := fs w; stdout := stdout w; stderr := stderr w;
               spawned := spawned w ++ [c] |}).

(** ** Package [bufio]: a [Scanner] with the default split function,
    [ScanLines] *)

Module bufio.

Definition MaxScanTokenSize : Z := 64 * 1024.

(** [dropCR] drops one terminal carriage return. *)
Fixpoint dropCR (s : string) : string :=
  match s with
  | EmptyString => EmptyString
  | String c EmptyString => if Ascii.eqb c CR then EmptyString else s
  | String c s' => String c (dropCR s')
  end.

(** The input cut at every newline; what follows the last newline
    counts as a line when it is not empty. *)
Fixpoint rawLines (s : string) : list string :=
  match s with
  | EmptyString => []
  | String c s' =>
      if Ascii.eqb c LF then EmptyString :: rawLines s'
      else match rawLines s' with
           | h :: t => String c h :: t
           | [] => [String c EmptyString]
           end
  end.

(** The tokens [Scan] delivers before it returns false, and [Err].
    A line that fills the buffer of [MaxScanTokenSize] bytes without a
    newline stops the scanner with [ErrTooLong]. *)
Fixpoint tokens (raws : list string) : list string * option error :=
  match raws with
  | [] => ([], None)
  | r :: rs =>
      if MaxScanTokenSize <=? len r then ([], Some bufio_ErrTooLong)
      else let (ts, e) := tokens rs in (dropCR r :: ts, e)
  end.

(** A read error ends the input like an end of file does (the bytes
    read so far are still cut into lines) and is what [Err] reports;
    [io.EOF] is not reported. *)
Definition Scan (f : File) : list string * option error :=
  let (ts, e) := tokens (rawLines (data f)) in
  (ts, match e with
       | Some e => Some e
       | None => match fault f with
                 | Some e => if is_EOF e then None else Some e
                 | None => None
                 end
       end).

(** [Reader.ReadString delim]: up to and including the first [delim],
    or everything when there is none. *)
Fixpoint ReadString (input : string) (delim : ascii) : string :=
  match input with
  | EmptyString => EmptyString
  | String c s' =>
      if Ascii.eqb c delim then String c EmptyString
      else String c (ReadString s' delim)
  end.

End bufio.

(** ** The program *)

(** Split s into lines, indent each line 2 spaces and color it with
    the grey color. *)
Definition greyFormat (s : string) : string :=
  let lines := strings.Split s nl in
  strings.Join
    ((fun line =>
        if String.eqb line EmptyString then line
        else "  " +:+ String ESC "[90m" +:+ line +:+ String ESC "[0m") <$> lines)
    nl.

(** Color every line of a diff that starts with '<' or '-' red, and
    every line that starts with '>' or '+' green. *)
Definition diffFormat (s : string) : string :=
  let lines := strings.Split s nl in
  strings.Join
    ((fun line =>
        if strings.HasPrefix line "<" || strings.HasPrefix line "-"
        then String ESC "[31m" +:+ line +:+ String ESC "[0m"
        else if strings.HasPrefix line ">" || strings.HasPrefix line "+"
        then String ESC "[32m" +:+ line +:+ String ESC "[0m"
        else line) <$> lines)
    nl.

(** The state of the loop of [readup]: its three local variables. *)
Record scanState : Type := {
  lines : list string;
  inCodeBlock : bool;
  codeBlock : list string
}.

Definition scanInit : scanState :=
  {| lines := []; inCodeBlock := false; codeBlock := [] |}.

Section Program.

Context (host : Host).

Definition exec_Command (name : string) (arg : list string) : Cmd :=
  {| Path := name; Args := name :: arg; Env := [] |}.

(** [pty.StartWithSize]: a pseudo-terminal is allocated and given its
    size, then the command is started on it and the terminal handed
    back.  The call fails, and no process is started, when no terminal
    can be had or when the command cannot be started.  The call itself
    is recorded in [spawned], with the command asked for, before
    anything is tried. *)
Definition pty_StartWithSize (command : Cmd) (ws : Winsize) : IO Child :=
  log_spawn command ;;;
  match pty_Open host command ws with
  | Some e => raise e
  | None => lift (pty_start host command ws)
  end.

(** The read loop of [execCommand], lines 72-83: a read error other
    than [io.EOF] fails, an empty read ends the loop, anything else is
    appended. *)
Fixpoint readAll (ptyFile : list ReadResult) (out : string) : result string :=
  match ptyFile with
  | [] => Ok out
  | r :: rest =>
      match rerr r with
      | Some e =>
          if negb (is_EOF e) then Err e
          else if len (chunk r) =? 0 then Ok out
          else readAll rest (out +:+ chunk r)
      | None =>
          if len (chunk r) =? 0 then Ok out
          else readAll rest (out +:+ chunk r)
      end
  end.

(** execCommand() runs a command in a PTY and returns the output. *)
Definition execCommand (cmd : list string) (print : bool) : IO string :=
  (if print then fmt_Printf ("Running: " +:+ strings.Join cmd " " +:+ nl)
   else ret tt) ;;;
  let args := if 1 <? llen cmd then drop 1 cmd else [] in
  name <- index cmd 0 ;;
  let command := exec_Command name args in
  let command :=
    {| Path := Path command; Args := Args command;
       Env := os_Environ host ++ ["PATH=" +:+ os_Getenv host "PATH"] |} in
  let winSize := {| Rows := 40; Cols := 80 |} in
  ptyFile <- pty_StartWithSize command winSize ;;
  out <- lift (readAll (reads ptyFile) EmptyString) ;;
  let output := strings.Replace out cr EmptyString (-1) in
  (if print then fmt_Printf ("Output:" +:+ nl +:+ greyFormat output)
   else ret tt) ;;;
  ret output.

Definition os_Open (filename : string) : IO File :=
  fun w =>
    match fs w !! filename with
    | Some f => (Return f, w)
    | None =>
        (Failed (errors_New ("open " +:+ filename +:+ ": no such file or directory")), w)
    end.

(** One turn of the loop of [readup], lines 112-149. *)
Definition scanLine (line : string) (st : scanState) : IO scanState :=
  let lines' := lines st ++ [line] in
  let codeBlock' :=
    if inCodeBlock st then codeBlock st ++ [line] else codeBlock st in
  if negb (inCodeBlock st) && strings.HasPrefix line fence then
    ret {| lines := lines'; inCodeBlock := true; codeBlock := [line] |}
  else if inCodeBlock st && strings.HasPrefix line fence then
    first <- index codeBlock' 1 ;;
    if strings.HasPrefix first "> " then
      tail <- (match str_from first 2 with
               | Some t => ret t
               | None => panic "slice bounds out of range"
               end) ;;
      let codeBlockCommand := strings.Split tail " " in
      codeBlockOutput <- execCommand codeBlockCommand true ;;
      let blockStart := llen lines' - llen codeBlock' + 2 in
      kept <- (match slice_to lines' blockStart with
               | Some l => ret l
               | None => panic "slice bounds out of range"
               end) ;;
      ret {| lines := (kept ++ [codeBlockOutput]) ++ [fence];
             inCodeBlock := false; codeBlock := codeBlock' |}
    else
      ret {| lines := lines'; inCodeBlock := false; codeBlock := codeBlock' |}
  else
    ret {| lines := lines'; inCodeBlock := inCodeBlock st; codeBlock := codeBlock' |}.

Fixpoint scanLoop (input : list string) (st : scanState) : IO scanState :=
  match input with
  | [] => ret st
  | line :: rest => st' <- scanLine line st ;; scanLoop rest st'
  end.

(** readup() reads the README file, finds the code blocks, looks for a
    '> [command]' on the first line, and if it finds it, executes the
    command and replaces the code block with the output.

    The scanner's lines are taken at once: no command changes the file.
    What [scanner.Err()] would say is dropped, as in the source, which
    never asks. *)
Definition readup (filename : string) : IO string :=
  file <- os_Open filename ;;
  let (input, _) := bufio.Scan file in
  st <- scanLoop input scanInit ;;
  ret (strings.Join (lines st) nl).

(** [os.Create]: the file is there and empty afterwards. *)
Definition os_Create (filename : string) : IO string :=
  set_fs (fun m => <[filename := regular EmptyString]> m) ;;; ret filename.

(** [ioutil.TempFile] in the default directory, with the pattern
    "readup": a new, empty file under the name the host picks. *)
Definition ioutil_TempFile : IO string :=
  fun w =>
    match temp_name host (fs w) with
    | Err e => (Failed e, w)
    | Ok name => os_Create name w
    end.

(** [fmt.Fprintf(file, "%s", content)] on a file just created.  The
    write is taken to go through in full; the count and the error that
    [fmt.Fprintf] returns are dropped by both callers. *)
Definition fmt_Fprintf (file content : string) : IO unit :=
  set_fs (fun m => <[file := regular content]> m).

Definition writeFile (filename content : string) : IO unit :=
  file <- os_Create filename ;;
  fmt_Fprintf file content.

Definition writeTempFile (filename content : string) : IO string :=
  file <- ioutil_TempFile ;;
  fmt_Fprintf file content ;;;
  ret file.

(** [exec.Command("cp", src, dst).Run()] *)
Definition cp_Run (src dst : string) : IO unit :=
  let command := exec_Command "cp" [src; dst] in
  log_spawn command ;;;
  match run_fault host command with
  | Some e => raise e
  | None =>
      fun w =>
        match fs w !! src with
        | Some f =>
            match fault f with
            | None => set_fs (fun m => <[dst := f]> m) w
            | Some e => (Failed e, w)
            end
        | None => (Failed (errors_New "exit status 1"), w)
        end
  end.

Definition os_Remove (name : string) : IO unit :=
  match remove_fault host name with
  | Some e => raise e
  | None =>
      fun w =>
        match fs w !! name with
        | Some _ => set_fs (fun m => delete name m) w
        | None =>
            (Failed (errors_New ("remove " +:+ name +:+ ": no such file or directory")), w)
        end
  end.

(** A process ends with an exit status. *)
Definition Process : Type := World -> Z * World.

Definition os_Exit (code : Z) : Process := fun w => (code, w).

(** The pattern of [main]: run [m]; on an error print it to standard
    error and exit with status 1; a panic ends the process with
    status 2. *)
Definition orDie {A} (m : IO A) (k : A -> Process) : Process :=
  fun w =>
    match m w with
    | (Return a, w') => k a w'
    | (Failed e, w') =>
        os_Exit 1 (snd (fmt_Eprintf ("Error: " +:+ error_Error e +:+ nl) w'))
    | (Panicked _, w') => os_Exit 2 w'
    end.

(** Lines 182-188 of [main]: the file named on the command line, or
    [./README.md]. *)
Definition targetFile : IO string :=
  if negb (llen (os_Args host) =? 2) then ret "./README.md"
  else index (os_Args host) 1.

(** The answer at the prompt, lines 213-215: one line of standard
    input; [true] when, trimmed and in lower case, it is not "y". *)
Definition declined : bool :=
  let text := bufio.ReadString (os_Stdin host) LF in
  negb (String.eqb (strings.ToLower (strings.TrimSpace text)) "y").

Definition main : Process :=
  orDie targetFile (fun filename =>
  orDie (readup filename) (fun content =>
  orDie (writeTempFile filename content) (fun tmpName =>
  orDie (execCommand ["diff"; "-u"; filename; tmpName] false) (fun diffOut =>
  orDie (fmt_Println (diffFormat diffOut)) (fun _ =>
  orDie (fmt_Print "Update file? [y/N] ") (fun _ =>
  if declined then os_Exit 0
  else
    orDie (cp_Run tmpName filename) (fun _ =>
    orDie (os_Remove tmpName) (fun _ =>
    os_Exit 0)))))))).

End Program.

(** [main] in two pieces, for the statements below: the world at the
    prompt (the diff and the question are printed), and the last step,
    lines 219-233 (copy the scratch file over the original, remove it,
    exit). *)
Definition prompted (diffOut : string) (w : World) : World :=
  snd (fmt_Print "Update file? [y/N] " (snd (fmt_Println (diffFormat diffOut) w))).

Definition apply_update (host : Host) (tmpName filename : string) : Process :=
  orDie (cp_Run host tmpName filename) (fun _ =>
  orDie (os_Remove host tmpName) (fun _ =>
  os_Exit 0)).

(** ** A second reading of the loop: the document by segments

    The lines of a document fall into lines outside any block, closed
    blocks (an opening fence, the inner lines, the closing fence) and at
    most one block left open at the end.  [renderAll] says what each
    segment becomes; [scanLoop_segments] below proves that the loop of
    [readup] computes just that. *)

Inductive segment : Type :=
| Text (line : string)
| Block (opening : string) (inner : list string) (closing : string)
| Unterminated (opening : string) (rest : list string).

Definition isFence (line : string) : bool := strings.HasPrefix line fence.

(** [cur] is the block being read: its opening fence and the inner
    lines seen so far. *)
Fixpoint segments (input : list string) (cur : option (string * list string))
  : list segment :=
  match input with
  | [] =>
      match cur with
      | None => []
      | Some (o, acc) => [Unterminated o acc]
      end
  | l :: rest =>
      match cur with
      | None =>
          if isFence l then segments rest (Some (l, []))
          else Text l :: segments rest None
      | Some (o, acc) =>
          if isFence l then Block o acc l :: segments rest None
          else segments rest (Some (o, acc ++ [l]))
      end
  end.

Definition flatten (seg : segment) : list string :=
  match seg with
  | Text l => [l]
  | Block o inner c => o :: inner ++ [c]
  | Unterminated o rest => o :: rest
  end.

(** The directive of a block: its first inner line, when that begins
    with "> ". *)
Definition directive (seg : segment) : option string :=
  match seg with
  | Block _ (d :: _) _ => if strings.HasPrefix d "> " then Some d else None
  | _ => None
  end.

Definition eligible (seg : segment) : bool :=
  match directive seg with Some _ => true | None => false end.

(** The command of a directive: the prefix is stripped and the rest cut
    at single spaces. *)
Definition commandOf (d : string) : list string :=
  strings.Split (string_drop 2 d) " ".

(** What a segment becomes: an eligible block keeps its opening fence
    and its directive, then come the output as one element and a plain
    fence; every other segment stays as it is. *)
Definition render (host : Host) (seg : segment) : IO (list string) :=
  match directive seg, seg with
  | Some d, Block o _ _ =>
      out <- execCommand host (commandOf d) true ;;
      ret [o; d; out; fence]
  | _, _ => ret (flatten seg)
  end.

Fixpoint renderAll (host : Host) (segs : list segment) : IO (list string) :=
  match segs with
  | [] => ret []
  | seg :: rest =>
      a <- render host seg ;;
      b <- renderAll host rest ;;
      ret (a ++ b)
  end.

(** Segments as [segments] produces them: text lines and inner lines
    are no fences, blocks are closed by fences, and only the last
    segment can be an open block. *)
Inductive wfSegs : list segment -> Prop :=
| wf_nil : wfSegs []
| wf_open o rest :
    isFence o = true -> Forall (fun l => isFence l = false) rest ->
    wfSegs [Unterminated o rest]
| wf_text l segs :
    isFence l = false -> wfSegs segs -> wfSegs (Text l :: segs)
| wf_block o inner c segs :
    isFence o = true -> Forall (fun l => isFence l = false) inner ->
    isFence c = true -> wfSegs segs -> wfSegs (Block o inner c :: segs).

(** The states of the scanner.  Outside a block the lines so far are
    [out] (and [codeBlock] holds what the last block left there);
    inside one, the block read so far, [o :: acc], is at the end of the
    lines. *)
Definition outside (out cb : list string) : scanState :=
  {| lines := out; inCodeBlock := false; codeBlock := cb |}.

Definition inside (out : list string) (o : string) (acc : list string) : scanState :=
  {| lines := out ++ o :: acc; inCodeBlock := true; codeBlock := o :: acc |}.

Definition stateOf (out : list string) (cur : option (string * list string))
    (cb : list string) : scanState :=
  match cur with
  | None => outside out cb
  | Some (o, acc) => inside out o acc
  end.

(** ** What [execCommand] returns, read off the terminal

    The command [execCommand] builds for [name] and its arguments. *)
Definition commandFor (host : Host) (name : string) (args : list string) : Cmd :=
  {| Path := name; Args := name :: args;
     Env := os_Environ host ++ ["PATH=" +:+ os_Getenv host "PATH"] |}.

Definition ptySize : Winsize := {| Rows := 40; Cols := 80 |}.

(** A read that the loop appends and goes on from: it brought bytes and
    no error other than [io.EOF]. *)
Definition goodRead (r : ReadResult) : bool :=
  negb (len (chunk r) =? 0) &&
  match rerr r with Some e => is_EOF e | None => true end.

(** The error of a read, when it is one and not [io.EOF]. *)
Definition readError (r : ReadResult) : option error :=
  match rerr r with
  | Some e => if is_EOF e then None else Some e
  | None => None
  end.

(** The reads up to the first that is not good, and that one: the read
    at which the loop stops. *)
Fixpoint goodReads (rs : list ReadResult) : list ReadResult :=
  match rs with
  | r :: rest => if goodRead r then r :: goodReads rest else []
  | [] => []
  end.

Fixpoint stoppedAt (rs : list ReadResult) : option ReadResult :=
  match rs with
  | r :: rest => if goodRead r then stoppedAt rest else Some r
  | [] => None
  end.

Definition captured (rs : list ReadResult) : string :=
  String.concat EmptyString (chunk <$> goodReads rs).

(** Deleting a byte everywhere in a string. *)
Fixpoint deleteByte (b : ascii) (s : string) : string :=
  match s with
  | EmptyString => EmptyString
  | String c s' => if Ascii.eqb c b then deleteByte b s' else String c (deleteByte b s')
  end.

(** What the pseudo-terminal yields for a command line: no terminal
    can be had, or the command cannot be started, or the loop stops at
    a read error, or the bytes captured are returned with the carriage
    returns taken out. *)
Definition ptyResult (host : Host) (name : string) (args : list string)
  : outcome string :=
  match pty_Open host (commandFor host name args) ptySize with
  | Some e => Failed e
  | None =>
      match pty_start host (commandFor host name args) ptySize with
      | Err e => Failed e
      | Ok child =>
          match stoppedAt (reads child) with
          | Some r =>
              match readError r with
              | Some e => Failed e
              | None => Return (deleteByte CR (captured (reads child)))
              end
          | None => Return (deleteByte CR (captured (reads child)))
          end
      end
  end.

(** The three ways in which [execCommand] can meet the error [e] for a
    command: [pty.StartWithSize] finds no pseudo-terminal; it has one
    and cannot start the command; the command runs and a read of its
    terminal, after reads that all brought bytes, fails with [e], which
    is not [io.EOF]. *)
Definition allocationFails (host : Host) (command : Cmd) (e : error) : Prop :=
  pty_Open host command ptySize = Some e.

Definition startFails (host : Host) (command : Cmd) (e : error) : Prop :=
  pty_Open host command ptySize = None /\
  pty_start host command ptySize = Err e.

Definition readFails (host : Host) (command : Cmd) (e : error) : Prop :=
  exists child good rd rest,
    pty_Open host command ptySize = None /\
    pty_start host command ptySize = Ok child /\
    reads child = good ++ rd :: rest /\
    Forall (fun x => goodRead x = true) good /\
    rerr rd = Some e /\ is_EOF e = false.

(** The command runs and its terminal is read to the end: the reads
    [good] all brought bytes, and after them the list ends or a read
    brings no bytes and no error other than [io.EOF]. *)
Definition readToEnd (host : Host) (command : Cmd) (child : Child)
    (good : list ReadResult) : Prop :=
  pty_Open host command ptySize = None /\
  pty_start host command ptySize = Ok child /\
  Forall (fun x => goodRead x = true) good /\
  (reads child = good \/
   exists rd rest, reads child = good ++ rd :: rest /\
                   len (chunk rd) = 0 /\ readError rd = None).

(** Two hosts whose terminals show the same: the same environment for
    the child, a terminal to be had on the one when on the other, and
    the same reads (or the same failure to start) for every command;
    the exit statuses are free to differ. *)
Definition sameTerminals (h1 h2 : Host) : Prop :=
  os_Environ h1 = os_Environ h2 /\
  os_Getenv h1 "PATH" = os_Getenv h2 "PATH" /\
  (forall c ws, pty_Open h1 c ws = pty_Open h2 c ws) /\
  forall c ws,
    match pty_start h1 c ws, pty_start h2 c ws with
    | Ok a, Ok b => reads a = reads b
    | Err e1, Err e2 => e1 = e2
    | _, _ => False
    end.

(** ** Documents as text *)

Definition text (ls : list string) : string := strings.Join ls nl.

Fixpoint hasLF (s : string) : bool :=
  match s with
  | EmptyString => false
  | String c s' => Ascii.eqb c LF || hasLF s'
  end.

Fixpoint endsWithLF (s : string) : bool :=
  match s with
  | EmptyString => false
  | String c EmptyString => Ascii.eqb c LF
  | String _ s' => endsWithLF s'
  end.

(** A line the scanner hands over as it is: shorter than the buffer and
    without a carriage return at its end. *)
Definition plainLine (r : string) : Prop :=
  len r < bufio.MaxScanTokenSize /\ bufio.dropCR r = r.

(** All newlines at the end of a text taken off. *)
Fixpoint trimNewlines (s : string) : string :=
  match s with
  | EmptyString => EmptyString
  | String c s' =>
      match trimNewlines s' with
      | EmptyString => if Ascii.eqb c LF then EmptyString else String c EmptyString
      | t => String c t
      end
  end.

(** An output none of whose lines begins with a fence. *)
Definition fenceFree (out : string) : Prop :=
  Forall (fun l => isFence l = false) (strings.Split out nl).

(** Every command of the document that succeeds prints such an output. *)
Definition outputsFenceFree (host : Host) (segs : list segment) : Prop :=
  Forall (fun seg =>
            forall d out w,
              directive seg = Some d ->
              fst (execCommand host (commandOf d) true w) = Return out ->
              fenceFree out) segs.

(** ** A small host and some documents, for examples

    On the demo host a pseudo-terminal can always be had; [echo]
    prints its arguments on a terminal that ends lines with CR LF;
    [false] prints nothing and exits with status 1; [diff] finds no
    difference; nothing else can be started.  The one file is
    [README.md]. *)

Fixpoint repeatByte (n : nat) (c : ascii) : string :=
  match n with
  | O => EmptyString
  | S k => String c (repeatByte k c)
  end.

Definition terminal (output : string) (status : Z) : result Child :=
  Ok {| reads := [ {| chunk := output; rerr := None |} ]; exitStatus := status |}.

Definition demo_start (c : Cmd) (ws : Winsize) : result Child :=
  if String.eqb (Path c) "echo" then
    terminal (strings.Join (drop 1 (Args c)) " " +:+ cr +:+ nl) 0
  else if String.eqb (Path c) "false" then
    Ok {| reads := []; exitStatus := 1 |}
  else if String.eqb (Path c) "diff" then
    Ok {| reads := []; exitStatus := 0 |}
  else Err (errors_New ("exec: " +:+ Path c +:+ ": executable file not found in $PATH")).

Definition demo_temp (m : gmap string File) : result string :=
  match m !! "/tmp/readup1" with
  | None => Ok "/tmp/readup1"
  | Some _ => Err (errors_New "open /tmp/readup1: file exists")
  end.

Definition demoHost (stdin : string) : Host :=
  {| os_Args := ["readup"; "README.md"];
     os_Stdin := stdin;
     os_Environ := [];
     os_Getenv := fun _ => "/usr/bin";
     pty_Open := fun _ _ => None;
     pty_start := demo_start;
     temp_name := demo_temp;
     run_fault := fun _ => None;
     remove_fault := fun _ => None |}.

Definition demoWorld (readme : File) : World :=
  {| fs := {[ "README.md" := readme ]}; stdout := EmptyString; stderr := EmptyString; spawned := [] |}.

(** What [readup] returns for a README with the text [D]. *)
Definition scanned (D : string) : outcome string :=
  fst (readup (demoHost EmptyString) "README.md" (demoWorld (regular D))).

(** The example of the specification: a block with a directive and an
    output that is out of date. *)
Definition staleDoc : string :=
  text ["```"; "> echo hi"; "stale output"; "```"].

(** A README that opens and then cannot be read to its end. *)
Definition brokenReadme : File :=
  {| data := text ["# Title"; "first line"; "sec"];
     fault := Some (errors_New "read README.md: input/output error") |}.

(** A directory: it opens, and the first read fails. *)
Definition directoryFile : File :=
  {| data := EmptyString; fault := Some (errors_New "read README.md: is a directory") |}.

(** A README whose second line has 65536 bytes. *)
Definition longLineReadme : File :=
  regular (text ["# Title"; repeatByte (Z.to_nat bufio.MaxScanTokenSize) "x"; "the rest"]).

(** A document with CR LF line ends and no code block. *)
Definition crlfDoc : string :=
  "one" +:+ cr +:+ nl +:+ "two" +:+ cr +:+ nl.

(** A document with a block that has no directive. *)
Definition plainDoc : string :=
  text ["# Title"; "```go"; "x := 1"; "```"; "the end"; EmptyString].

(** Documents on which a second scan differs from the first: a block
    whose command prints a fence, a document that ends in an empty
    line, and a line with two carriage returns at its end. *)
Definition fenceDoc : string := text ["```"; "> echo ```"; "```"].

Definition blankEndDoc : string := text ["# Title"; EmptyString; EmptyString].

Definition twoCRDoc : string := "a" +:+ cr +:+ cr +:+ nl +:+ "b".


(** ** For the further properties

    What [greyFormat] and [diffFormat] do to one line. *)
Definition greyLine (line : string) : string :=
  if String.eqb line EmptyString then line
  else "  " +:+ String ESC "[90m" +:+ line +:+ String ESC "[0m".

Definition removed (line : string) : bool :=
  strings.HasPrefix line "<" || strings.HasPrefix line "-".

Definition added (line : string) : bool :=
  strings.HasPrefix line ">" || strings.HasPrefix line "+".

Definition diffLine (line : string) : string :=
  if removed line then String ESC "[31m" +:+ line +:+ String ESC "[0m"
  else if added line then String ESC "[32m" +:+ line +:+ String ESC "[0m"
  else line.

Fixpoint hasByte (b : ascii) (s : string) : bool :=
  match s with
  | EmptyString => false
  | String c s' => Ascii.eqb c b || hasByte b s'
  end.

(** The commands of the eligible blocks, in the order of the document,
    as [execCommand] builds them. *)
Definition commandsOf (host : Host) (segs : list segment) : list Cmd :=
  flat_map (fun seg =>
              match directive seg with
              | Some d =>
                  match commandOf d with
                  | name :: args => [commandFor host name args]
                  | [] => []
                  end
              | None => []
              end) segs.


(** The block being read, when there is one, opens with a fence and
    holds no other fence. *)
Definition curOk (cur : option (string * list string)) : Prop :=
  match cur with
  | Some (o, acc) => isFence o = true /\ Forall (fun l => isFence l = false) acc
  | None => True
  end.


(** The demo host with a [cp] that fails, or with a scratch file that
    cannot be removed. *)
Definition withFaults (h : Host) (cp_e rm_e : option error) : Host :=
  {| os_Args := os_Args h;
     os_Stdin := os_Stdin h;
     os_Environ := os_Environ h;
     os_Getenv := os_Getenv h;
     pty_Open := pty_Open h;
     pty_start := pty_start h;
     temp_name := temp_name h;
     run_fault := fun _ => cp_e;
     remove_fault := fun _ => rm_e |}.

Definition cpFailsHost : Host :=
  withFaults (demoHost ("y" +:+ nl)) (Some (errors_New "exit status 1")) None.


(** The document of the examples after its scan, and a document whose
    command cannot be started. *)
Definition freshDoc : string := text ["```"; "> echo hi"; "hi" +:+ nl; "```"].

Definition nopeDoc : string := text ["```"; "> nope"; "```"].



(** A host on which every command starts, prints one line and exits
    with status 0, and on which the read after the last bytes fails
    with an input/output error instead of ending the data. *)
Definition eioHost : Host :=
  {| os_Args := os_Args (demoHost EmptyString);
     os_Stdin := os_Stdin (demoHost EmptyString);
     os_Environ := os_Environ (demoHost EmptyString);
     os_Getenv := os_Getenv (demoHost EmptyString);
     pty_Open := pty_Open (demoHost EmptyString);
     pty_start := fun _ _ =>
       Ok {| reads :=
               [ {| chunk := "done" +:+ cr +:+ nl; rerr := None |};
                 {| chunk := EmptyString;
                    rerr := Some (errors_New "read /dev/ptmx: input/output error") |} ];
             exitStatus := 0 |};
     temp_name := temp_name (demoHost EmptyString);
     run_fault := run_fault (demoHost EmptyString);
     remove_fault := remove_fault (demoHost EmptyString) |}.

(** * Facts *)

Arguments strings.Replace : simpl never.
Arguments strings.Join : simpl never.
Arguments strings.Split : simpl never.
Arguments strings.HasPrefix : simpl never.
Arguments greyFormat : simpl never.

(** ** The monad *)

Lemma bind_Return {A B} (m : IO A) (k : A -> IO B) w a w' :
  m w = (Return a, w') -> (x <- m ;; k x) w = k a w'.
Proof. intros H. unfold bind. now rewrite H. Qed.

Lemma bind_inv_Return {A B} (m : IO A) (k : A -> IO B) w b w2 :
  (x <- m ;; k x) w = (Return b, w2) ->
  exists a w1, m w = (Return a, w1) /\ k a w1 = (Return b, w2).
Proof.
  unfold bind. destruct (m w) as [[a | e | msg] w1]; intros H; try discriminate.
  now exists a, w1.
Qed.

Lemma bind_assoc {A B C} (m : IO A) (k : A -> IO B) (h : B -> IO C) w :
  (y <- (x <- m ;; k x) ;; h y) w = (x <- m ;; y <- k x ;; h y) w.
Proof. unfold bind. now destruct (m w) as [[a | e | msg] w1]. Qed.

(** ** Strings *)

Lemma HasPrefix_cons c s c' p :
  strings.HasPrefix (String c s) (String c' p) = true ->
  c = c' /\ strings.HasPrefix s p = true.
Proof.
  unfold strings.HasPrefix. simpl.
  destruct (ascii_dec c' c) as [-> | ?]; [now split | discriminate].
Qed.

(** A fence is not a directive: they differ in the first byte. *)
Lemma fence_not_directive l :
  isFence l = true -> strings.HasPrefix l "> " = false.
Proof.
  unfold isFence, fence. destruct l as [| c l]; [discriminate |].
  intros H. apply HasPrefix_cons in H as [-> _]. reflexivity.
Qed.

Lemma directive_not_fence d :
  strings.HasPrefix d "> " = true -> isFence d = false.
Proof.
  intros H. destruct (isFence d) eqn:E; [| reflexivity].
  apply fence_not_directive in E. congruence.
Qed.

(** A directive has the two bytes that [[2:]] passes over. *)
Lemma str_from_directive d :
  strings.HasPrefix d "> " = true -> str_from d 2 = Some (string_drop 2 d).
Proof.
  destruct d as [| c1 [| c2 d]]; intros H.
  - discriminate.
  - apply HasPrefix_cons in H as [_ H]. discriminate.
  - unfold str_from, len. simpl String.length.
    replace (0 <=? 2) with true by reflexivity.
    replace (2 <=? Z.of_nat (S (S (String.length d)))) with true
      by (symmetry; apply Z.leb_le; lia).
    reflexivity.
Qed.

Lemma genSplit_nonempty s sep skip : strings.genSplit s sep skip <> [].
Proof.
  revert skip. induction s as [| c s IH]; intros skip; cbn -[String.prefix]; [done |].
  destruct skip; [| apply IH].
  destruct (String.prefix sep (String c s)); [done |].
  destruct (strings.genSplit s sep 0); done.
Qed.

(** [strings.Split] on a single space always yields a first element:
    the command line of a directive has a program name. *)
Lemma Split_space_cons s : exists name args, strings.Split s " " = name :: args.
Proof.
  unfold strings.Split.
  destruct (strings.genSplit s " " 0) as [| name args] eqn:E.
  - now apply genSplit_nonempty in E.
  - now exists name, args.
Qed.

(** ** [execCommand] *)

Section ExecFacts.

Context (host : Host).

Lemma append_cons c a b : String c a +:+ b = String c (a +:+ b).
Proof. reflexivity. Qed.

Lemma append_empty_l s : EmptyString +:+ s = s.
Proof. reflexivity. Qed.

Lemma append_empty_r s : s +:+ EmptyString = s.
Proof.
  induction s as [| c s IH]; [reflexivity |].
  now rewrite append_cons, IH.
Qed.

Lemma append_assoc a b c : (a +:+ b) +:+ c = a +:+ (b +:+ c).
Proof.
  induction a as [| x a IH]; [reflexivity |].
  now rewrite !append_cons, IH.
Qed.

Lemma concat_empty_cons x xs :
  String.concat EmptyString (x :: xs) = x +:+ String.concat EmptyString xs.
Proof.
  destruct xs as [| y ys]; simpl; [now rewrite append_empty_r | reflexivity].
Qed.

Lemma captured_good r rs :
  goodRead r = true -> captured (r :: rs) = chunk r +:+ captured rs.
Proof.
  intros H. unfold captured. cbn [goodReads]. rewrite H.
  cbn [fmap list_fmap]. apply concat_empty_cons.
Qed.

Lemma captured_stop r rs : goodRead r = false -> captured (r :: rs) = EmptyString.
Proof. intros H. unfold captured. cbn [goodReads]. now rewrite H. Qed.

(** The loop with its accumulator, against the declarative reading. *)
Lemma readAll_spec rs out :
  readAll rs out =
    match stoppedAt rs with
    | Some r =>
        match readError r with
        | Some e => Err e
        | None => Ok (out +:+ captured rs)
        end
    | None => Ok (out +:+ captured rs)
    end.
Proof.
  revert out. induction rs as [| r rs IH]; intros out.
  - simpl. unfold captured. simpl. now rewrite append_empty_r.
  - cbn [readAll stoppedAt].
    destruct (goodRead r) eqn:G.
    + rewrite (captured_good _ _ G), <- append_assoc, <- IH.
      unfold goodRead in G. apply andb_prop in G as [G1 G2].
      apply Bool.negb_true_iff in G1. rewrite G1.
      destruct (rerr r) as [e |]; [now rewrite G2 | reflexivity].
    + rewrite (captured_stop _ _ G), append_empty_r.
      unfold goodRead in G. unfold readError.
      destruct (rerr r) as [e |].
      * destruct (is_EOF e); [| reflexivity].
        rewrite Bool.andb_true_r in G. apply Bool.negb_false_iff in G.
        now rewrite G.
      * rewrite Bool.andb_true_r in G. apply Bool.negb_false_iff in G.
        now rewrite G.
Qed.

Lemma prefix_cr c s : String.prefix cr (String c s) = Ascii.eqb c CR.
Proof.
  unfold cr. cbn [String.prefix].
  destruct (ascii_dec CR c) as [<- | N].
  - now destruct s.
  - symmetry. apply Ascii.eqb_neq. congruence.
Qed.

(** Replacing every carriage return by nothing, as line 86 does,
    deletes every carriage return. *)
Lemma Replace_cr s : strings.Replace s cr EmptyString (-1) = deleteByte CR s.
Proof.
  unfold strings.Replace. cbn [Z.ltb Z.compare].
  induction s as [| c s IH]; [reflexivity |].
  cbn [strings.genReplace deleteByte andb]. rewrite prefix_cr.
  destruct (Ascii.eqb c CR).
  - rewrite append_empty_l. exact IH.
  - now rewrite IH.
Qed.

Lemma args_of_cons (name : string) (args : list string) :
  (if 1 <? llen (name :: args) then drop 1 (name :: args) else []) = args.
Proof.
  unfold llen. destruct args as [| a args]; [reflexivity |].
  replace (1 <? _) with true; [reflexivity |].
  symmetry. apply Z.ltb_lt. simpl List.length. lia.
Qed.

Lemma execCommand_fst name args print w :
  fst (execCommand host (name :: args) print w) = ptyResult host name args.
Proof.
  unfold execCommand, ptyResult. rewrite args_of_cons.
  unfold bind at 1.
  destruct ((if print then fmt_Printf _ else ret tt) w) as [[[] | e | m] w1] eqn:E0;
    [| destruct print; discriminate ..].
  cbn [index lookup list_lookup ret bind].
  unfold pty_StartWithSize, bind, log_spawn, exec_Command, commandFor, ptySize. simpl.
  destruct (pty_Open host _ _) as [e |]; simpl; [reflexivity |].
  destruct (pty_start host _ _) as [child | e]; simpl; [| reflexivity].
  rewrite readAll_spec, append_empty_l.
  destruct (stoppedAt (reads child)) as [r |];
    [destruct (readError r) |]; simpl; rewrite ?Replace_cr;
    try reflexivity; now destruct print.
Qed.

(** Every call hands exactly the command it built to
    [pty.StartWithSize], whatever comes of it, and leaves the files
    alone. *)
Lemma execCommand_world name args print w :
  spawned (snd (execCommand host (name :: args) print w)) =
    spawned w ++ [commandFor host name args] /\
  fs (snd (execCommand host (name :: args) print w)) = fs w /\
  stderr (snd (execCommand host (name :: args) print w)) = stderr w.
Proof.
  unfold execCommand. rewrite args_of_cons.
  cbn [index lookup list_lookup].
  unfold pty_StartWithSize, bind, log_spawn, exec_Command, commandFor, ptySize.
  destruct print; cbn [fmt_Printf ret];
    (destruct (pty_Open host _ _) as [e |]; cbn; [auto |];
     destruct (pty_start host _ _) as [child | e]; cbn;
     [destruct (readAll (reads child) EmptyString) as [out | e]; cbn; auto | auto]).
Qed.

Lemma stoppedAt_Some rs rd :
  stoppedAt rs = Some rd ->
  exists good rest,
    rs = good ++ rd :: rest /\ Forall (fun r => goodRead r = true) good /\
    goodRead rd = false /\ goodReads rs = good.
Proof.
  induction rs as [| r rs IH]; [discriminate |].
  cbn [stoppedAt goodReads]. destruct (goodRead r) eqn:G.
  - intros H. destruct (IH H) as (good & rest & -> & Hg & Hrd & Hgs).
    exists (r :: good), rest. rewrite Hgs. repeat split; auto.
  - intros [= ->]. exists [], rs. repeat split; auto.
Qed.

Lemma stoppedAt_None rs :
  stoppedAt rs = None ->
  Forall (fun r => goodRead r = true) rs /\ goodReads rs = rs.
Proof.
  induction rs as [| r rs IH]; [now split |].
  cbn [stoppedAt goodReads]. destruct (goodRead r) eqn:G; [| discriminate].
  intros H. destruct (IH H) as [Hg Hgs]. rewrite Hgs. split; auto.
Qed.

Lemma stoppedAt_app good rd rest :
  Forall (fun r => goodRead r = true) good ->
  goodRead rd = false ->
  stoppedAt (good ++ rd :: rest) = Some rd /\ goodReads (good ++ rd :: rest) = good.
Proof.
  intros Hg Hrd. induction Hg as [| r good Hr Hg IH]; cbn [app stoppedAt goodReads].
  - now rewrite Hrd.
  - rewrite Hr. destruct IH as [-> ->]. now split.
Qed.

Lemma stoppedAt_all_good good :
  Forall (fun r => goodRead r = true) good ->
  stoppedAt good = None /\ goodReads good = good.
Proof.
  intros Hg. induction Hg as [| r good Hr Hg IH]; cbn [stoppedAt goodReads].
  - now split.
  - rewrite Hr. destruct IH as [-> ->]. now split.
Qed.

(** A read that failed is not a good one. *)
Lemma failed_not_good rd e :
  rerr rd = Some e -> is_EOF e = false -> goodRead rd = false /\ readError rd = Some e.
Proof.
  intros H1 H2. unfold goodRead, readError. rewrite H1, H2.
  split; [apply Bool.andb_false_r | reflexivity].
Qed.

Lemma readError_Some rd e :
  readError rd = Some e -> rerr rd = Some e /\ is_EOF e = false.
Proof.
  unfold readError. destruct (rerr rd) as [e' |]; [| discriminate].
  destruct (is_EOF e') eqn:E; [discriminate |]. now intros [= ->].
Qed.

End ExecFacts.

(** ** The loop of [readup], turn by turn *)

Section ScanFacts.

Context (host : Host).

Lemma llen_app {A} (a b : list A) : llen (a ++ b) = llen a + llen b.
Proof. unfold llen. rewrite length_app. lia. Qed.

(** [blockStart] is within the lines whenever the block, which has at
    least its two fences, is at their end: [lines[:blockStart]] keeps
    what came before the block and the block's first two lines. *)
Lemma blockStart_in_range (out cb : list string) :
  (2 <= List.length cb)%nat ->
  slice_to (out ++ cb) (llen (out ++ cb) - llen cb + 2) = Some (out ++ take 2 cb).
Proof.
  intros H. unfold slice_to. rewrite llen_app.
  replace (llen out + llen cb - llen cb + 2) with (llen out + 2) by lia.
  assert (E : (0 <=? llen out + 2) && (llen out + 2 <=? llen out + llen cb) = true).
  { apply andb_true_intro. unfold llen. split; [apply Z.leb_le | apply Z.leb_le]; lia. }
  rewrite E. f_equal.
  replace (Z.to_nat (llen out + 2)) with (List.length out + 2)%nat
    by (unfold llen; lia).
  now rewrite take_app_add.
Qed.

Lemma scanLine_text out cb l w :
  isFence l = false ->
  scanLine host l (outside out cb) w = (Return (outside (out ++ [l]) cb), w).
Proof.
  intros H. unfold scanLine, outside. cbn [lines inCodeBlock codeBlock negb andb].
  unfold isFence in H. now rewrite H.
Qed.

Lemma scanLine_open out cb l w :
  isFence l = true ->
  scanLine host l (outside out cb) w = (Return (inside out l []), w).
Proof.
  intros H. unfold scanLine, outside. cbn [lines inCodeBlock codeBlock negb andb].
  unfold isFence in H. now rewrite H.
Qed.

Lemma scanLine_inner out o acc l w :
  isFence l = false ->
  scanLine host l (inside out o acc) w = (Return (inside out o (acc ++ [l])), w).
Proof.
  intros H. unfold scanLine, inside. cbn [lines inCodeBlock codeBlock negb andb].
  unfold isFence in H. rewrite H. unfold ret.
  now rewrite <- app_assoc.
Qed.

Lemma scanLine_close_empty out o c w :
  isFence c = true ->
  scanLine host c (inside out o []) w = (Return (outside (out ++ [o; c]) [o; c]), w).
Proof.
  intros H. unfold scanLine, inside. cbn [lines inCodeBlock codeBlock negb andb].
  pose proof (fence_not_directive _ H) as N.
  unfold isFence in H. rewrite H.
  cbn [app index lookup list_lookup bind ret]. rewrite N.
  unfold outside. now rewrite <- app_assoc.
Qed.

Lemma scanLine_close_plain out o d acc c w :
  isFence c = true ->
  strings.HasPrefix d "> " = false ->
  scanLine host c (inside out o (d :: acc)) w =
    (Return (outside (out ++ o :: d :: acc ++ [c]) (o :: d :: acc ++ [c])), w).
Proof.
  intros H N. unfold scanLine, inside. cbn [lines inCodeBlock codeBlock negb andb].
  unfold isFence in H. rewrite H.
  cbn [app index lookup list_lookup bind ret]. rewrite N.
  unfold outside. now rewrite <- app_assoc.
Qed.

Lemma scanLine_close_run out o d acc c w :
  isFence c = true ->
  strings.HasPrefix d "> " = true ->
  scanLine host c (inside out o (d :: acc)) w =
    (output <- execCommand host (commandOf d) true ;;
     ret (outside (out ++ [o; d; output; fence]) (o :: d :: acc ++ [c]))) w.
Proof.
  intros H D. unfold scanLine, inside. cbn [lines inCodeBlock codeBlock negb andb].
  unfold isFence in H. rewrite H.
  cbn [app index lookup list_lookup bind ret]. rewrite D.
  rewrite (str_from_directive _ D). cbn [bind ret]. fold (commandOf d).
  unfold bind at 1 3.
  destruct (execCommand host (commandOf d) true w) as [[output | e | m] w1];
    try reflexivity.
  rewrite <- app_assoc. cbn [app].
  rewrite (blockStart_in_range out (o :: d :: acc ++ [c])) by (simpl; lia).
  cbn [take bind ret]. unfold outside. now rewrite <- !app_assoc.
Qed.

(** ** The loop as a whole *)

Lemma scanLoop_app a b st w :
  scanLoop host (a ++ b) st w = (st' <- scanLoop host a st ;; scanLoop host b st') w.
Proof.
  revert st w. induction a as [| l a IH]; intros st w; [reflexivity |].
  cbn [app scanLoop]. rewrite bind_assoc. unfold bind.
  destruct (scanLine host l st w) as [[st1 | e | m] w1]; try reflexivity.
  exact (IH st1 w1).
Qed.

(** Lines that are no fence, read inside a block, pile up in it. *)
Lemma scanLoop_inner ls : forall out o acc w,
  Forall (fun l => isFence l = false) ls ->
  scanLoop host ls (inside out o acc) w = (Return (inside out o (acc ++ ls)), w).
Proof.
  induction ls as [| l ls IH]; intros out o acc w H.
  - now rewrite app_nil_r.
  - inversion H as [| ? ? Hl Hls]; subst.
    cbn [scanLoop]. rewrite (bind_Return _ _ _ _ _ (scanLine_inner out o acc l w Hl)).
    rewrite IH by assumption. now rewrite <- app_assoc.
Qed.

Lemma render_eligible o d acc c :
  strings.HasPrefix d "> " = true ->
  render host (Block o (d :: acc) c) =
    (out <- execCommand host (commandOf d) true ;; ret [o; d; out; fence]).
Proof. intros D. unfold render, directive. now rewrite D. Qed.

Lemma render_plain seg : directive seg = None -> render host seg = ret (flatten seg).
Proof. intros D. unfold render. now rewrite D. Qed.

(** The scanner against the segments of the document: the lines it
    ends with are what came before, then every segment rendered. *)
Lemma scanLoop_segments input : forall out cur cb w,
  (st <- scanLoop host input (stateOf out cur cb) ;; ret (lines st)) w =
  (ls <- renderAll host (segments input cur) ;; ret (out ++ ls)) w.
Proof.
  induction input as [| l rest IH]; intros out cur cb w.
  - destruct cur as [[o acc] |]; cbn; now rewrite ?app_nil_r.
  - pose proof (fun out cb w => IH out None cb w) as IHo.
    pose proof (fun out o acc w => IH out (Some (o, acc)) cb w) as IHi.
    cbn [stateOf] in IHo, IHi. clear IH.
    cbn [scanLoop segments]. rewrite bind_assoc.
    destruct cur as [[o acc] |]; cbn [stateOf].
    + destruct (isFence l) eqn:F.
      * (* the block closes *)
        destruct acc as [| d acc].
        -- rewrite (bind_Return _ _ _ _ _ (scanLine_close_empty out o l w F)).
           rewrite IHo. cbn [renderAll]. rewrite render_plain by reflexivity.
           cbn [flatten app]. unfold bind, ret.
           destruct (renderAll host (segments rest None) w) as [[ls | e | m] w1];
             try reflexivity.
           now rewrite <- app_assoc.
        -- destruct (strings.HasPrefix d "> ") eqn:D.
           ++ unfold bind at 1. rewrite (scanLine_close_run out o d acc l w F D).
              cbn [renderAll]. rewrite (render_eligible o d acc l D).
              unfold bind.
              destruct (execCommand host (commandOf d) true w) as [[output | e | m] w1];
                try reflexivity.
              cbn [ret].
              pose proof (IHo (out ++ [o; d; output; fence]) (o :: d :: acc ++ [l]) w1) as E.
              unfold bind in E. rewrite E.
              destruct (renderAll host (segments rest None) w1) as [[ls | e | m] w2];
                try reflexivity.
              unfold ret. now rewrite <- app_assoc.
           ++ rewrite (bind_Return _ _ _ _ _ (scanLine_close_plain out o d acc l w F D)).
              rewrite IHo. cbn [renderAll].
              rewrite render_plain by (cbn [directive]; now rewrite D).
              cbn [flatten]. unfold bind, ret.
              destruct (renderAll host (segments rest None) w) as [[ls | e | m] w1];
                try reflexivity.
              now rewrite <- app_assoc.
      * rewrite (bind_Return _ _ _ _ _ (scanLine_inner out o acc l w F)).
        exact (IHi out o (acc ++ [l]) w).
    + destruct (isFence l) eqn:F.
      * rewrite (bind_Return _ _ _ _ _ (scanLine_open out cb l w F)).
        exact (IHi out l [] w).
      * rewrite (bind_Return _ _ _ _ _ (scanLine_text out cb l w F)).
        rewrite IHo. cbn [renderAll]. rewrite render_plain by reflexivity.
        cbn [flatten]. unfold bind, ret.
        destruct (renderAll host (segments rest None) w) as [[ls | e | m] w1];
          try reflexivity.
        now rewrite <- app_assoc.
Qed.

End ScanFacts.


(** ** Whole blocks *)

Section BlockFacts.

Context (host : Host).

Lemma outside_eta st :
  inCodeBlock st = false -> st = outside (lines st) (codeBlock st).
Proof. destruct st as [ls b cb]. cbn. now intros ->. Qed.

(** An opening fence and what follows it up to the end of the input. *)
Lemma scanLoop_open_rest out cb o rest w :
  isFence o = true ->
  Forall (fun l => isFence l = false) rest ->
  scanLoop host (o :: rest) (outside out cb) w = (Return (inside out o rest), w).
Proof.
  intros Ho Hrest. cbn [scanLoop].
  rewrite (bind_Return _ _ _ _ _ (scanLine_open host out cb o w Ho)).
  now rewrite scanLoop_inner.
Qed.

(** A block with no inner line. *)
Lemma scanLoop_block_empty out cb o c w :
  isFence o = true -> isFence c = true ->
  scanLoop host [o; c] (outside out cb) w =
    (Return (outside (out ++ [o; c]) [o; c]), w).
Proof.
  intros Ho Hc. cbn [scanLoop].
  rewrite (bind_Return _ _ _ _ _ (scanLine_open host out cb o w Ho)).
  now rewrite (bind_Return _ _ _ _ _ (scanLine_close_empty host out o c w Hc)).
Qed.

(** A block whose first inner line is a directive. *)
Lemma scanLoop_block_run out cb o d inner c w :
  isFence o = true ->
  strings.HasPrefix d "> " = true ->
  Forall (fun l => isFence l = false) inner ->
  isFence c = true ->
  scanLoop host (o :: d :: inner ++ [c]) (outside out cb) w =
    (output <- execCommand host (commandOf d) true ;;
     ret (outside (out ++ [o; d; output; fence]) (o :: d :: inner ++ [c]))) w.
Proof.
  intros Ho Hd Hin Hc.
  change (o :: d :: inner ++ [c]) with ((o :: d :: inner) ++ [c]) at 1.
  rewrite scanLoop_app.
  assert (E : scanLoop host (o :: d :: inner) (outside out cb) w =
              (Return (inside out o (d :: inner)), w)).
  { apply scanLoop_open_rest; [assumption |].
    constructor; [now apply directive_not_fence | assumption]. }
  rewrite (bind_Return _ _ _ _ _ E). cbn [scanLoop].
  unfold bind at 1. rewrite (scanLine_close_run host out o d inner c w Hc Hd).
  unfold bind. now destruct (execCommand host (commandOf d) true w) as [[x | e | m] w1].
Qed.

(** A block whose first inner line is no directive. *)
Lemma scanLoop_block_plain out cb o d inner c w :
  isFence o = true ->
  isFence d = false ->
  strings.HasPrefix d "> " = false ->
  Forall (fun l => isFence l = false) inner ->
  isFence c = true ->
  scanLoop host (o :: d :: inner ++ [c]) (outside out cb) w =
    (Return (outside (out ++ o :: d :: inner ++ [c]) (o :: d :: inner ++ [c])), w).
Proof.
  intros Ho Hf Hd Hin Hc.
  change (o :: d :: inner ++ [c]) with ((o :: d :: inner) ++ [c]) at 1.
  rewrite scanLoop_app.
  assert (E : scanLoop host (o :: d :: inner) (outside out cb) w =
              (Return (inside out o (d :: inner)), w)).
  { apply scanLoop_open_rest; [assumption | now constructor]. }
  rewrite (bind_Return _ _ _ _ _ E). cbn [scanLoop].
  now rewrite (bind_Return _ _ _ _ _ (scanLine_close_plain host out o d inner c w Hc Hd)).
Qed.

(** What is there when the scanner is outside a block stays: later
    lines only add to it. *)
Lemma scanLoop_keeps_prefix post out cb w st w' :
  scanLoop host post (outside out cb) w = (Return st, w') ->
  exists tail, lines st = out ++ tail.
Proof.
  intros H. pose proof (scanLoop_segments host post out None cb w) as E.
  cbn [stateOf] in E. unfold bind at 1 in E. rewrite H in E. cbn [ret] in E.
  unfold bind in E.
  destruct (renderAll host (segments post None) w) as [[ls | e | m] w1];
    try discriminate.
  injection E as E _. now exists ls.
Qed.

Lemma readup_unfold filename f w :
  fs w !! filename = Some f ->
  readup host filename w =
    (st <- scanLoop host (fst (bufio.Scan f)) scanInit ;;
     ret (strings.Join (lines st) nl)) w.
Proof.
  intros H. unfold readup. unfold bind at 1. unfold os_Open. rewrite H.
  now destruct (bufio.Scan f).
Qed.

Lemma readup_open_fails filename w :
  fs w !! filename = None ->
  exists e, readup host filename w = (Failed e, w).
Proof.
  intros H. unfold readup, bind, os_Open. rewrite H. eauto.
Qed.

End BlockFacts.


(** ** No panic

    The three places where the loop could panic ([cmd[0]],
    [codeBlock[1]] and the two slices) never do. *)

Section NoPanic.

Context (host : Host).

Lemma ptyResult_no_panic name args m : ptyResult host name args <> Panicked m.
Proof.
  unfold ptyResult. destruct (pty_Open host _ _) as [e |]; [done |].
  destruct (pty_start host _ _) as [child | e]; [| done].
  destruct (stoppedAt (reads child)) as [r |]; [destruct (readError r) |]; done.
Qed.

Lemma renderAll_no_panic segs w m : fst (renderAll host segs w) <> Panicked m.
Proof.
  revert w. induction segs as [| seg segs IH]; intros w; [done |].
  cbn [renderAll]. unfold bind at 1.
  destruct (render host seg w) as [[a | e | m'] w1] eqn:R.
  - unfold bind. specialize (IH w1).
    now destruct (renderAll host segs w1) as [[b | e | m'] w2].
  - done.
  - exfalso. unfold render in R.
    destruct (directive seg) as [d |]; [| discriminate].
    destruct seg as [| o inner c |]; try discriminate.
    unfold bind in R.
    destruct (Split_space_cons (string_drop 2 d)) as (name & args & E).
    unfold commandOf in R. rewrite E in R.
    pose proof (execCommand_fst host name args true w) as F.
    destruct (execCommand host (name :: args) true w) as [[x | e | m''] w2];
      try discriminate.
    cbn [fst] in F. symmetry in F. now apply ptyResult_no_panic in F.
Qed.

Lemma scanLoop_no_panic input w m :
  fst (scanLoop host input scanInit w) <> Panicked m.
Proof.
  pose proof (scanLoop_segments host input [] None [] w) as E.
  cbn [stateOf] in E. unfold bind in E. change (outside [] []) with scanInit in E.
  pose proof (renderAll_no_panic (segments input None) w m) as N.
  destruct (scanLoop host input scanInit w) as [[st | e | m1] w1],
           (renderAll host (segments input None) w) as [[ls | e' | m2] w2];
    try discriminate; try done.
  injection E as -> _. cbn [fst] in *. intros [= ->]. now apply N.
Qed.

End NoPanic.


(** ** Results and worlds

    What a command returns is a function of its command line; the
    world only collects what is printed and which commands were asked
    for. *)

Section RenderFacts.

Context (host : Host).

Lemma execCommand_fst_indep cmd print w w' :
  fst (execCommand host cmd print w) = fst (execCommand host cmd print w').
Proof.
  destruct cmd as [| name args]; [| now rewrite !execCommand_fst].
  unfold execCommand, bind. now destruct print.
Qed.

Lemma execCommand_fs cmd print w :
  fs (snd (execCommand host cmd print w)) = fs w.
Proof.
  destruct cmd as [| name args]; [| apply execCommand_world].
  unfold execCommand, bind. now destruct print.
Qed.

Lemma render_fst_indep seg w w' :
  fst (render host seg w) = fst (render host seg w').
Proof.
  unfold render. destruct (directive seg) as [d |]; [| reflexivity].
  destruct seg as [| o inner c |]; try reflexivity.
  unfold bind. pose proof (execCommand_fst_indep (commandOf d) true w w') as E.
  destruct (execCommand host (commandOf d) true w) as [[x | e | m] w1],
           (execCommand host (commandOf d) true w') as [[x' | e' | m'] w1'];
    cbn [fst] in E; try discriminate; now inversion E.
Qed.

Lemma render_fs seg w : fs (snd (render host seg w)) = fs w.
Proof.
  unfold render. destruct (directive seg) as [d |]; [| reflexivity].
  destruct seg as [| o inner c |]; try reflexivity.
  unfold bind. pose proof (execCommand_fs (commandOf d) true w) as E.
  now destruct (execCommand host (commandOf d) true w) as [[x | e | m] w1].
Qed.

(** Binding a computation whose result does not depend on the world. *)
Lemma bind_fst_indep {A B} (m : IO A) (k : A -> B) w w' :
  fst (m w) = fst (m w') ->
  fst ((x <- m ;; ret (k x)) w) = fst ((x <- m ;; ret (k x)) w').
Proof.
  unfold bind, ret.
  destruct (m w) as [[a | e | msg] w1], (m w') as [[a' | e' | msg'] w1'];
    cbn [fst]; intros E; try discriminate; now inversion E.
Qed.

Lemma renderAll_fst_indep segs : forall w w',
  fst (renderAll host segs w) = fst (renderAll host segs w').
Proof.
  induction segs as [| seg segs IH]; intros w w'; [reflexivity |].
  cbn [renderAll]. unfold bind at 1 3.
  pose proof (render_fst_indep seg w w') as E.
  destruct (render host seg w) as [[a | e | m] w1],
           (render host seg w') as [[a' | e' | m'] w1'];
    cbn [fst] in E; try discriminate; inversion E; subst; try reflexivity.
  apply bind_fst_indep, IH.
Qed.

Lemma renderAll_fs segs : forall w, fs (snd (renderAll host segs w)) = fs w.
Proof.
  induction segs as [| seg segs IH]; intros w; [reflexivity |].
  cbn [renderAll]. unfold bind at 1.
  pose proof (render_fs seg w) as E.
  destruct (render host seg w) as [[a | e | m] w1]; try exact E.
  cbn [snd] in E. rewrite <- E. specialize (IH w1).
  unfold bind, ret.
  now destruct (renderAll host segs w1) as [[b | e | m] w2].
Qed.

(** [readup] by segments: the file is opened, every segment of its
    lines is rendered in turn, and the lines are joined. *)
Lemma readup_segments filename f w :
  fs w !! filename = Some f ->
  readup host filename w =
    (ls <- renderAll host (segments (fst (bufio.Scan f)) None) ;;
     ret (strings.Join ls nl)) w.
Proof.
  intros H. rewrite (readup_unfold host _ _ _ H).
  pose proof (scanLoop_segments host (fst (bufio.Scan f)) [] None [] w) as E.
  cbn [stateOf] in E. change (outside [] []) with scanInit in E.
  unfold bind, ret in *.
  destruct (scanLoop host (fst (bufio.Scan f)) scanInit w) as [[st | e | m] w1],
           (renderAll host (segments (fst (bufio.Scan f)) None) w) as [[ls | e' | m'] w2];
    try discriminate; now inversion E.
Qed.

(** [readup] writes no file. *)
Lemma readup_fs filename w : fs (snd (readup host filename w)) = fs w.
Proof.
  destruct (fs w !! filename) as [f |] eqn:H.
  - rewrite (readup_segments _ _ _ H).
    pose proof (renderAll_fs (segments (fst (bufio.Scan f)) None) w) as E.
    unfold bind, ret.
    now destruct (renderAll host (segments (fst (bufio.Scan f)) None) w) as [[ls | e | m] w1].
  - destruct (readup_open_fails host _ _ H) as [e ->]. reflexivity.
Qed.

End RenderFacts.


(** ** The workflow of [main] *)

Section MainFacts.

Context (host : Host).

(** The file to work on is always determined. *)
Lemma targetFile_total : exists filename, forall w, targetFile host w = (Return filename, w).
Proof.
  unfold targetFile. destruct (llen (os_Args host) =? 2) eqn:E; cbn [negb].
  - apply Z.eqb_eq in E. unfold llen in E.
    destruct (os_Args host) as [| a [| b [| c l]]]; cbn in E; try lia.
    now exists b.
  - now exists "./README.md".
Qed.

Lemma writeTempFile_Return filename content w tmpName w' :
  writeTempFile host filename content w = (Return tmpName, w') ->
  temp_name host (fs w) = Ok tmpName /\
  fs w' = <[tmpName := regular content]> (fs w) /\
  spawned w' = spawned w.
Proof.
  unfold writeTempFile, ioutil_TempFile, bind at 1.
  destruct (temp_name host (fs w)) as [name | e]; [| discriminate].
  cbn. intros [= <- <-]. rewrite insert_insert_eq. auto.
Qed.

(** Once the document is scanned, staged and diffed, [main] prints the
    diff and the prompt; then it stops or applies the update. *)
Lemma main_after_staging w filename content w1 tmpName w2 diffOut w3 :
  targetFile host w = (Return filename, w) ->
  readup host filename w = (Return content, w1) ->
  writeTempFile host filename content w1 = (Return tmpName, w2) ->
  execCommand host ["diff"; "-u"; filename; tmpName] false w2 = (Return diffOut, w3) ->
  main host w =
    if declined host then (0, prompted diffOut w3)
    else apply_update host tmpName filename (prompted diffOut w3).
Proof.
  intros Ht Hr Hw Hd. unfold main.
  unfold orDie at 1. rewrite Ht.
  unfold orDie at 1. rewrite Hr.
  unfold orDie at 1. rewrite Hw.
  unfold orDie at 1. rewrite Hd.
  unfold orDie at 1 2. cbn [fmt_Printf].
  destruct (declined host); reflexivity.
Qed.

Lemma prompted_fs diffOut w : fs (prompted diffOut w) = fs w.
Proof. reflexivity. Qed.

Lemma orDie_Return {A} (m : IO A) (k : A -> Process) w a w' :
  m w = (Return a, w') -> orDie m k w = k a w'.
Proof. intros H. unfold orDie. now rewrite H. Qed.

Lemma orDie_Failed {A} (m : IO A) (k : A -> Process) w e w' :
  m w = (Failed e, w') ->
  fst (orDie m k w) = 1 /\ fs (snd (orDie m k w)) = fs w'.
Proof. intros H. unfold orDie. now rewrite H. Qed.

Lemma cp_Run_cases src dst w f :
  fs w !! src = Some f ->
  (exists e w', cp_Run host src dst w = (Failed e, w') /\ fs w' = fs w) \/
  (exists w', cp_Run host src dst w = (Return tt, w') /\ fs w' = <[dst := f]> (fs w)).
Proof.
  intros Hf. unfold cp_Run, bind, log_spawn.
  destruct (run_fault host (exec_Command "cp" [src; dst])) as [e |].
  { left. cbn. eauto. }
  cbn [fs]. rewrite Hf. destruct (fault f) as [e |].
  - left. cbn. eauto.
  - right. cbn. eauto.
Qed.

Lemma os_Remove_cases name w :
  (exists e, os_Remove host name w = (Failed e, w)) \/
  (exists w', os_Remove host name w = (Return tt, w') /\ fs w' = delete name (fs w)).
Proof.
  unfold os_Remove. destruct (remove_fault host name) as [e |].
  { left. cbn. eauto. }
  destruct (fs w !! name); [right | left]; cbn; eauto.
Qed.

(** Applying the update: when the scratch file is gone afterwards, the
    copy succeeded and the process exits with 0. *)
Lemma apply_update_removed tmpName filename w :
  is_Some (fs w !! tmpName) ->
  fs (snd (apply_update host tmpName filename w)) !! tmpName = None ->
  (exists w', cp_Run host tmpName filename w = (Return tt, w')) /\
  fst (apply_update host tmpName filename w) = 0.
Proof.
  intros [f Hf]. unfold apply_update.
  destruct (cp_Run_cases tmpName filename w f Hf)
    as [(e & w' & Hcp & Hfs) | (w' & Hcp & Hfs)].
  - destruct (orDie_Failed _ (fun _ => orDie (os_Remove host tmpName) (fun _ => os_Exit 0))
                _ _ _ Hcp) as [_ F].
    rewrite F, Hfs, Hf. discriminate.
  - rewrite (orDie_Return _ _ _ _ _ Hcp).
    assert (Hin : is_Some (fs w' !! tmpName)).
    { rewrite Hfs. destruct (decide (filename = tmpName)) as [-> | N].
      - rewrite lookup_insert_eq. eauto.
      - rewrite lookup_insert_ne, Hf by assumption. eauto. }
    destruct (os_Remove_cases tmpName w') as [(e & Hrm) | (w'' & Hrm & Hfs')].
    + destruct (orDie_Failed _ (fun _ => os_Exit 0) _ _ _ Hrm) as [_ F].
      rewrite F. destruct Hin as [x Hx]. rewrite Hx. discriminate.
    + rewrite (orDie_Return _ _ _ _ _ Hrm). intros _. split; [eauto | reflexivity].
Qed.

End MainFacts.


(** The demo host gives out a name only when no file has it. *)
Lemma demo_temp_fresh m name : demo_temp m = Ok name -> m !! name = None.
Proof.
  unfold demo_temp. destruct (m !! "/tmp/readup1") eqn:E; [discriminate |].
  now intros [= <-].
Qed.

Lemma readup_Return_opened host filename w content w1 :
  readup host filename w = (Return content, w1) -> is_Some (fs w !! filename).
Proof.
  intros H. destruct (fs w !! filename) eqn:E; [eauto |].
  destruct (readup_open_fails host _ _ E) as [e F]. congruence.
Qed.

Lemma declined_true host :
  strings.ToLower (strings.TrimSpace (bufio.ReadString (os_Stdin host) LF)) <> "y" ->
  declined host = true.
Proof.
  intros N. unfold declined. apply Bool.negb_true_iff. now apply String.eqb_neq.
Qed.

(** The files at the prompt: those at the start and the scratch file. *)
Lemma staged_fs host w filename content w1 tmpName w2 diffOut w3 :
  readup host filename w = (Return content, w1) ->
  writeTempFile host filename content w1 = (Return tmpName, w2) ->
  execCommand host ["diff"; "-u"; filename; tmpName] false w2 = (Return diffOut, w3) ->
  fs (prompted diffOut w3) = <[tmpName := regular content]> (fs w) /\
  temp_name host (fs w) = Ok tmpName.
Proof.
  intros Hr Hw Hd.
  pose proof (readup_fs host filename w) as F1. rewrite Hr in F1. cbn [snd] in F1.
  pose proof (execCommand_fs host ["diff"; "-u"; filename; tmpName] false w2) as F3.
  rewrite Hd in F3. cbn [snd] in F3.
  destruct (writeTempFile_Return host _ _ _ _ _ Hw) as (T & F2 & _).
  rewrite prompted_fs, F3, F2, F1. split; [reflexivity | now rewrite <- F1].
Qed.


(** ** Text and lines *)

Section TextFacts.

Lemma Join_one x sep : strings.Join [x] sep = x.
Proof. reflexivity. Qed.

Lemma Join_cons x y l sep :
  strings.Join (x :: y :: l) sep = x +:+ sep +:+ strings.Join (y :: l) sep.
Proof. reflexivity. Qed.

Lemma rawLines_nil s : bufio.rawLines s = [] -> s = EmptyString.
Proof.
  destruct s as [| c s]; [reflexivity |]. cbn [bufio.rawLines].
  destruct (Ascii.eqb c LF); [discriminate |].
  destruct (bufio.rawLines s); discriminate.
Qed.

Lemma rawLines_LF s : bufio.rawLines (String LF s) = EmptyString :: bufio.rawLines s.
Proof. reflexivity. Qed.

Lemma rawLines_other c s :
  Ascii.eqb c LF = false ->
  bufio.rawLines (String c s) =
    match bufio.rawLines s with
    | h :: t => String c h :: t
    | [] => [String c EmptyString]
    end.
Proof. intros H. cbn [bufio.rawLines]. now rewrite H. Qed.

(** Joining the lines of a text gives the text back, less one final
    newline. *)
Lemma Join_rawLines s :
  s = strings.Join (bufio.rawLines s) nl +:+ (if endsWithLF s then nl else EmptyString).
Proof.
  induction s as [| c s IH]; [reflexivity |].
  destruct (Ascii.eqb_spec c LF) as [-> | N].
  - rewrite rawLines_LF.
    destruct (bufio.rawLines s) as [| h t] eqn:R.
    + apply rawLines_nil in R. subst s. reflexivity.
    + rewrite Join_cons. rewrite append_empty_l.
      assert (E : endsWithLF (String LF s) = endsWithLF s).
      { destruct s; [discriminate R | reflexivity]. }
      rewrite E, append_assoc. unfold nl at 1. rewrite append_cons, append_empty_l.
      now rewrite <- IH.
  - apply Ascii.eqb_neq in N. rewrite (rawLines_other c s N).
    destruct (bufio.rawLines s) as [| h t] eqn:R.
    + apply rawLines_nil in R. subst s. cbn [endsWithLF]. rewrite N. reflexivity.
    + assert (E : endsWithLF (String c s) = endsWithLF s).
      { destruct s; [discriminate R | reflexivity]. }
      rewrite E.
      assert (J : strings.Join (String c h :: t) nl = String c (strings.Join (h :: t) nl)).
      { destruct t; reflexivity. }
      rewrite J, append_cons. now rewrite <- IH.
Qed.

Lemma tokens_short raws :
  Forall (fun r => len r < bufio.MaxScanTokenSize) raws ->
  bufio.tokens raws = (bufio.dropCR <$> raws, None).
Proof.
  induction 1 as [| r raws Hlen _ IH]; [reflexivity |].
  cbn [bufio.tokens].
  replace (bufio.MaxScanTokenSize <=? len r) with false
    by (symmetry; apply Z.leb_gt; exact Hlen).
  now rewrite IH.
Qed.

Lemma fmap_dropCR_id raws :
  Forall (fun r => bufio.dropCR r = r) raws -> bufio.dropCR <$> raws = raws.
Proof.
  induction 1 as [| r raws Hr _ IH]; [reflexivity |].
  cbn [fmap list_fmap]. fold (fmap (M:=list) bufio.dropCR raws). now rewrite Hr, IH.
Qed.

Lemma tokens_plain raws :
  Forall plainLine raws -> bufio.tokens raws = (raws, None).
Proof.
  induction 1 as [| r raws [Hlen Hcr] _ IH]; [reflexivity |].
  cbn [bufio.tokens].
  replace (bufio.MaxScanTokenSize <=? len r) with false
    by (symmetry; apply Z.leb_gt; exact Hlen).
  now rewrite IH, Hcr.
Qed.

(** *** Cutting at newlines: [strings.Split s "\n"] *)

Lemma prefix_nl c s : String.prefix nl (String c s) = Ascii.eqb c LF.
Proof.
  unfold nl. cbn [String.prefix].
  destruct (ascii_dec LF c) as [<- | N].
  - now destruct s.
  - symmetry. apply Ascii.eqb_neq. congruence.
Qed.

Lemma Split_nl_LF s : strings.Split (String LF s) nl = EmptyString :: strings.Split s nl.
Proof.
  unfold strings.Split. cbn [nl strings.genSplit]. fold nl.
  now rewrite prefix_nl.
Qed.

Lemma Split_nl_other c s :
  Ascii.eqb c LF = false ->
  strings.Split (String c s) nl =
    match strings.Split s nl with
    | h :: t => String c h :: t
    | [] => [String c EmptyString]
    end.
Proof.
  intros H. unfold strings.Split. cbn [nl strings.genSplit].
  fold nl. now rewrite prefix_nl, H.
Qed.

Lemma Split_nl_cons s : exists h t, strings.Split s nl = h :: t.
Proof.
  unfold strings.Split. cbn [nl]. fold nl.
  destruct (strings.genSplit s nl 0) as [| h t] eqn:E.
  - now apply genSplit_nonempty in E.
  - now exists h, t.
Qed.

Lemma Split_app_nl x rest :
  strings.Split (x +:+ nl +:+ rest) nl = strings.Split x nl ++ strings.Split rest nl.
Proof.
  induction x as [| c x IH].
  - rewrite append_empty_l. unfold nl at 1. rewrite append_cons, append_empty_l.
    now rewrite Split_nl_LF.
  - rewrite append_cons. destruct (Ascii.eqb_spec c LF) as [-> | N].
    + now rewrite !Split_nl_LF, IH.
    + apply Ascii.eqb_neq in N. rewrite !(Split_nl_other c _ N), IH.
      destruct (Split_nl_cons x) as (h & t & ->). reflexivity.
Qed.

Lemma Split_Join x O :
  strings.Split (strings.Join (x :: O) nl) nl =
    concat ((fun e => strings.Split e nl) <$> (x :: O)).
Proof.
  revert x. induction O as [| y O IH]; intros x.
  - rewrite Join_one. cbn [fmap list_fmap concat]. now rewrite app_nil_r.
  - rewrite Join_cons, Split_app_nl, IH. reflexivity.
Qed.

(** The scanner's lines are those of [Split], but for the empty last
    one that a final newline (or an empty text) gives. *)
Lemma rawLines_Split s :
  s <> EmptyString -> endsWithLF s = false -> bufio.rawLines s = strings.Split s nl.
Proof.
  induction s as [| c s IH]; [done |]. intros _ E.
  destruct s as [| c' s'].
  - cbn [endsWithLF] in E. rewrite (rawLines_other c EmptyString E), (Split_nl_other c EmptyString E).
    reflexivity.
  - assert (E' : endsWithLF (String c' s') = false) by exact E.
    specialize (IH ltac:(discriminate) E').
    destruct (Ascii.eqb_spec c LF) as [-> | N].
    + now rewrite rawLines_LF, Split_nl_LF, IH.
    + apply Ascii.eqb_neq in N.
      now rewrite (rawLines_other c _ N), (Split_nl_other c _ N), IH.
Qed.

Lemma Split_one_line s : hasLF s = false -> strings.Split s nl = [s].
Proof.
  induction s as [| c s IH]; [reflexivity |]. cbn [hasLF].
  intros H. apply Bool.orb_false_iff in H as [N H].
  now rewrite (Split_nl_other c s N), (IH H).
Qed.

Lemma rawLines_noLF s : Forall (fun l => hasLF l = false) (bufio.rawLines s).
Proof.
  induction s as [| c s IH]; [constructor |].
  destruct (Ascii.eqb c LF) eqn:N.
  - cbn [bufio.rawLines]. rewrite N. now constructor.
  - rewrite (rawLines_other c s N). destruct (bufio.rawLines s) as [| h t].
    + constructor; [| constructor]. cbn [hasLF]. now rewrite N.
    + inversion IH; subst. constructor; [| assumption]. cbn [hasLF]. now rewrite N.
Qed.

Lemma dropCR_noLF s : hasLF s = false -> hasLF (bufio.dropCR s) = false.
Proof.
  induction s as [| c s IH]; [reflexivity |]. cbn [hasLF].
  intros H. apply Bool.orb_false_iff in H as [N H].
  destruct s as [| c' s'].
  - cbn [bufio.dropCR]. destruct (Ascii.eqb c CR); [reflexivity |].
    cbn [hasLF]. now rewrite N.
  - change (bufio.dropCR (String c (String c' s')))
      with (String c (bufio.dropCR (String c' s'))).
    cbn [hasLF]. now rewrite N, (IH H).
Qed.

Lemma tokens_noLF raws :
  Forall (fun l => hasLF l = false) raws ->
  Forall (fun l => hasLF l = false) (fst (bufio.tokens raws)).
Proof.
  induction 1 as [| r raws Hr _ IH]; [constructor |].
  cbn [bufio.tokens]. destruct (bufio.MaxScanTokenSize <=? len r); [constructor |].
  destruct (bufio.tokens raws) as [ts e]. cbn [fst] in *.
  constructor; [now apply dropCR_noLF | assumption].
Qed.

(** No line the scanner delivers holds a newline. *)
Lemma Scan_noLF f : Forall (fun l => hasLF l = false) (fst (bufio.Scan f)).
Proof.
  unfold bufio.Scan. pose proof (tokens_noLF _ (rawLines_noLF (data f))) as H.
  now destruct (bufio.tokens (bufio.rawLines (data f))).
Qed.

End TextFacts.


(** ** Segments *)

Section SegmentFacts.

Context (host : Host).

Lemma segments_inner inner : forall tail o acc,
  Forall (fun l => isFence l = false) inner ->
  segments (inner ++ tail) (Some (o, acc)) = segments tail (Some (o, acc ++ inner)).
Proof.
  induction inner as [| l inner IH]; intros tail o acc H.
  - now rewrite app_nil_r.
  - inversion H as [| ? ? Hl Hin]; subst. cbn [app segments]. rewrite Hl.
    rewrite IH by assumption. now rewrite <- app_assoc.
Qed.

(** The segments of a document, laid end to end, are the document. *)
Lemma flatten_segments input : forall cur,
  concat (flatten <$> segments input cur) =
    match cur with
    | Some (o, acc) => o :: acc ++ input
    | None => input
    end.
Proof.
  induction input as [| l rest IH]; intros cur.
  - destruct cur as [[o acc] |]; cbn; now rewrite ?app_nil_r.
  - cbn [segments]. destruct cur as [[o acc] |]; destruct (isFence l).
    + cbn [fmap list_fmap concat flatten]. rewrite (IH None).
      cbn [app]. now rewrite <- app_assoc.
    + rewrite (IH (Some (o, acc ++ [l]))). now rewrite <- app_assoc.
    + now rewrite (IH (Some (l, []))).
    + cbn [fmap list_fmap concat flatten app]. now rewrite (IH None).
Qed.

Lemma segments_wf input : forall cur,
  match cur with
  | Some (o, acc) => isFence o = true /\ Forall (fun l => isFence l = false) acc
  | None => True
  end ->
  wfSegs (segments input cur).
Proof.
  induction input as [| l rest IH]; intros cur H.
  - destruct cur as [[o acc] |]; cbn; [destruct H |]; now constructor.
  - cbn [segments]. destruct cur as [[o acc] |]; destruct (isFence l) eqn:F.
    + destruct H. constructor; try assumption. now apply (IH None).
    + destruct H as [Ho Hacc]. apply (IH (Some (o, acc ++ [l]))).
      split; [assumption |]. apply Forall_app. split; [assumption | now constructor].
    + apply (IH (Some (l, []))). now split.
    + constructor; [assumption | now apply (IH None)].
Qed.

(** Cutting well-formed segments out of their own lines gives them
    back. *)
Lemma segments_flatten segs :
  wfSegs segs -> segments (concat (flatten <$> segs)) None = segs.
Proof.
  induction 1 as [| o rest Ho Hrest | l segs Hl _ IH | o inner c segs Ho Hin Hc _ IH].
  - reflexivity.
  - cbn [fmap list_fmap concat flatten app segments]. rewrite Ho, app_nil_r.
    rewrite <- (app_nil_r rest) at 1. now rewrite segments_inner.
  - cbn [fmap list_fmap concat flatten app segments]. now rewrite Hl, IH.
  - cbn [fmap list_fmap concat flatten app segments]. rewrite Ho.
    rewrite <- app_assoc. rewrite segments_inner by assumption.
    cbn [app segments]. now rewrite Hc, IH.
Qed.

(** Without an eligible block nothing is run and nothing changes. *)
Lemma renderAll_plain segs w :
  Forall (fun seg => eligible seg = false) segs ->
  renderAll host segs w = (Return (concat (flatten <$> segs)), w).
Proof.
  induction 1 as [| seg segs Hseg _ IH]; [reflexivity |].
  cbn [renderAll]. rewrite render_plain.
  - unfold bind, ret. now rewrite IH.
  - unfold eligible in Hseg. now destruct (directive seg).
Qed.

End SegmentFacts.


(** ** Scanning the result again *)

Section Rescan.

Context (host : Host).

Lemma renderAll_cons_inv seg segs w O w1 :
  renderAll host (seg :: segs) w = (Return O, w1) ->
  exists a w0 b,
    render host seg w = (Return a, w0) /\
    renderAll host segs w0 = (Return b, w1) /\ O = a ++ b.
Proof.
  cbn [renderAll]. intros H.
  apply bind_inv_Return in H as (a & w0 & Ha & H).
  apply bind_inv_Return in H as (b & w2 & Hb & H).
  injection H as <- <-. now exists a, w0, b.
Qed.

Lemma renderAll_cons_fst seg segs a b :
  (forall w, fst (render host seg w) = Return a) ->
  (forall w, fst (renderAll host segs w) = Return b) ->
  forall w, fst (renderAll host (seg :: segs) w) = Return (a ++ b).
Proof.
  intros Ha Hb w. cbn [renderAll]. unfold bind, ret.
  specialize (Ha w). destruct (render host seg w) as [[a' | e | m] w0];
    cbn [fst] in Ha; try discriminate. injection Ha as ->.
  specialize (Hb w0). destruct (renderAll host segs w0) as [[b' | e | m] w2];
    cbn [fst] in Hb; try discriminate. now injection Hb as ->.
Qed.

Lemma concat_Split_app (a b : list string) :
  concat ((fun e => strings.Split e nl) <$> (a ++ b)) =
    concat ((fun e => strings.Split e nl) <$> a)
      ++ concat ((fun e => strings.Split e nl) <$> b).
Proof. now rewrite fmap_app, concat_app. Qed.

Lemma concat_Split_noLF (l : list string) :
  Forall (fun x => hasLF x = false) l ->
  concat ((fun e => strings.Split e nl) <$> l) = l.
Proof.
  induction 1 as [| x l Hx _ IH]; [reflexivity |].
  cbn [fmap list_fmap concat]. fold (fmap (M:=list) (fun e => strings.Split e nl) l).
  now rewrite (Split_one_line x Hx), IH.
Qed.

(** The segments of the result, cut at newlines: the same as those of
    the document, but that each eligible block now holds the lines of
    its output; rendered, they give the result again. *)
Lemma rerender segs :
  wfSegs segs ->
  Forall (fun l => hasLF l = false) (concat (flatten <$> segs)) ->
  outputsFenceFree host segs ->
  forall w O w1,
    renderAll host segs w = (Return O, w1) ->
    exists segs',
      wfSegs segs' /\
      concat (flatten <$> segs') = concat ((fun e => strings.Split e nl) <$> O) /\
      forall w', fst (renderAll host segs' w') = Return O.
Proof.
  induction 1 as [| o rest Ho Hrest | l segs Hl Hwf IH | o inner c segs Ho Hin Hc Hwf IH];
    intros Hlf Hff w O w1 HR.
  - injection HR as <- <-. exists []. repeat split. constructor.
  - cbn in HR. injection HR as <- <-.
    cbn [fmap list_fmap concat flatten] in Hlf. rewrite app_nil_r in *.
    exists [Unterminated o rest]. split; [now constructor | split].
    + rewrite (concat_Split_noLF (o :: rest) Hlf).
      cbn [fmap list_fmap concat flatten]. now rewrite app_nil_r.
    + intros w'. cbn. now rewrite app_nil_r.
  - apply renderAll_cons_inv in HR as (a & w0 & b & Ha & Hb & ->).
    rewrite render_plain in Ha by reflexivity. injection Ha as <- <-.
    cbn [fmap list_fmap concat flatten] in Hlf.
    apply Forall_app in Hlf as [Hlf1 Hlf2].
    inversion Hff as [| ? ? _ Hff']; subst.
    destruct (IH Hlf2 Hff' _ _ _ Hb) as (segs' & Hwf' & Hfl & Hfst).
    exists (Text l :: segs'). split; [now constructor | split].
    + cbn [flatten]. rewrite concat_Split_app, <- Hfl.
      rewrite (concat_Split_noLF [l] Hlf1). reflexivity.
    + apply renderAll_cons_fst; [| exact Hfst].
      intros w'. now rewrite render_plain.
  - apply renderAll_cons_inv in HR as (a & w0 & b & Ha & Hb & ->).
    cbn [fmap list_fmap concat flatten] in Hlf.
    apply Forall_app in Hlf as [Hlf1 Hlf2].
    inversion Hff as [| ? ? Hff0 Hff']; subst.
    destruct (IH Hlf2 Hff' _ _ _ Hb) as (segs' & Hwf' & Hfl & Hfst).
    destruct (directive (Block o inner c)) as [d |] eqn:D.
    + (* an eligible block *)
      assert (Hd : strings.HasPrefix d "> " = true /\ exists inner', inner = d :: inner').
      { cbn [directive] in D. destruct inner as [| d' inner']; [discriminate |].
        destruct (strings.HasPrefix d' "> ") eqn:P; [| discriminate].
        injection D as <-. eauto. }
      destruct Hd as (Hd & inner' & ->).
      rewrite (render_eligible host o d inner' c Hd) in Ha.
      apply bind_inv_Return in Ha as (out & w2 & Hrun & Ha).
      injection Ha as <- <-.
      assert (Hout : fenceFree out).
      { apply (Hff0 d out w); [reflexivity | now rewrite Hrun]. }
      exists (Block o (d :: strings.Split out nl) fence :: segs').
      split; [| split].
      * constructor; try assumption; [| reflexivity].
        constructor; [now apply directive_not_fence | exact Hout].
      * cbn [fmap list_fmap concat flatten]. rewrite concat_Split_app, <- Hfl.
        f_equal. inversion Hlf1 as [| ? ? Hlo Hlf1']; subst.
        inversion Hlf1' as [| ? ? Hld _]; subst.
        cbn [fmap list_fmap concat].
        rewrite (Split_one_line o Hlo), (Split_one_line d Hld).
        cbn [app]. now rewrite app_nil_r.
      * apply renderAll_cons_fst; [| exact Hfst].
        intros w'. rewrite (render_eligible host o d _ fence Hd).
        pose proof (execCommand_fst_indep host (commandOf d) true w' w) as E.
        rewrite Hrun in E. unfold bind.
        destruct (execCommand host (commandOf d) true w') as [[x | e | m] w3];
          cbn [fst] in E; try discriminate. now injection E as ->.
    + rewrite (render_plain host _ D) in Ha. injection Ha as <- <-.
      exists (Block o inner c :: segs'). split; [now constructor | split].
      * cbn [fmap list_fmap concat]. rewrite concat_Split_app, <- Hfl.
        now rewrite (concat_Split_noLF _ Hlf1).
      * apply renderAll_cons_fst; [| exact Hfst].
        intros w'. now rewrite (render_plain host _ D).
Qed.

End Rescan.


(** ** The library at work *)

Example Split_spaces :
  strings.Split "echo hello world" " " = ["echo"; "hello"; "world"].
Proof. reflexivity. Qed.

Example Split_two_spaces : strings.Split "ls  -l" " " = ["ls"; EmptyString; "-l"].
Proof. reflexivity. Qed.

Example Split_nothing : strings.Split EmptyString " " = [EmptyString].
Proof. reflexivity. Qed.

Example Split_long_separator : strings.Split "a--b--" "--" = ["a"; "b"; EmptyString].
Proof. reflexivity. Qed.

Example Replace_all : strings.Replace "a-b-c" "-" "+" (-1) = "a+b+c".
Proof. reflexivity. Qed.

Example Replace_first : strings.Replace "a-b-c" "-" "+" 1 = "a+b-c".
Proof. reflexivity. Qed.

Example TrimSpace_ascii : strings.TrimSpace ("  a b " +:+ cr +:+ nl) = "a b".
Proof. reflexivity. Qed.

(** U+00A0 before and U+2028 after. *)
Example TrimSpace_unicode :
  strings.TrimSpace (String "194" (String "160" "Y") +:+
                     String "226" (String "128" (String "168" EmptyString))) = "Y".
Proof. reflexivity. Qed.

Example Scan_lines :
  bufio.Scan (regular ("a" +:+ cr +:+ nl +:+ nl +:+ "b" +:+ nl)) = (["a"; EmptyString; "b"], None).
Proof. reflexivity. Qed.

Example Scan_last_line : bufio.Scan (regular ("a" +:+ nl +:+ "b")) = (["a"; "b"], None).
Proof. reflexivity. Qed.

(** The answers at the prompt: end of input, "yes", "n" decline;
    " Y " and "y" followed by more lines accept. *)
Example answers :
  declined (demoHost EmptyString) = true /\
  declined (demoHost ("yes" +:+ nl)) = true /\
  declined (demoHost ("n" +:+ nl)) = true /\
  declined (demoHost (" Y " +:+ nl)) = false /\
  declined (demoHost ("y" +:+ nl +:+ "more")) = false.
Proof. repeat split. Qed.

(** [execCommand] on the demo host: a command that exits with status 1
    is no error; a program that is not there is one; an empty command
    line is a panic. *)
Example execCommand_demo :
  fst (execCommand (demoHost EmptyString) ["false"] true (demoWorld (regular EmptyString))) = Return EmptyString /\
  fst (execCommand (demoHost EmptyString) ["echo"; "a"; "b"] false (demoWorld (regular EmptyString)))
    = Return ("a b" +:+ nl) /\
  fst (execCommand (demoHost EmptyString) ["nope"] true (demoWorld (regular EmptyString)))
    = Failed (errors_New "exec: nope: executable file not found in $PATH") /\
  fst (execCommand (demoHost EmptyString) [] true (demoWorld (regular EmptyString)))
    = Panicked "index out of range".
Proof. repeat split. Qed.

(** What the scan of the specification's example prints. *)
Example readup_prints :
  stdout (snd (readup (demoHost EmptyString) "README.md" (demoWorld (regular staleDoc)))) =
    "Running: echo hi" +:+ nl +:+ "Output:" +:+ nl +:+
    "  " +:+ String ESC "[90mhi" +:+ String ESC "[0m" +:+ nl.
Proof. reflexivity. Qed.

(** * The claims *)

(** ** The runner: [execCommand] *)

(** C7, as the code has it.  For a command line with a program name,
    [execCommand] returns an error exactly when [pty.StartWithSize]
    fails, which it does when no pseudo-terminal can be had and also
    when the command cannot be started on it, or when a read fails
    with an error other than [io.EOF], all reads before it having
    brought bytes.  In every other case the command ran and
    [execCommand] returns the bytes captured, every carriage return
    deleted.  The child's exit status plays no part: two hosts whose
    terminals show the same give the same result. *)
Theorem C7_execCommand_errors host name args print w :
  let r := fst (execCommand host (name :: args) print w) in
  let command := commandFor host name args in
  (forall e, r = Failed e <->
     allocationFails host command e \/
     startFails host command e \/
     readFails host command e) /\
  ((forall e, r <> Failed e) ->
   exists child,
     pty_start host command ptySize = Ok child /\
     r = Return (deleteByte CR (captured (reads child)))) /\
  (forall child good, readToEnd host command child good ->
     r = Return (deleteByte CR (String.concat EmptyString (chunk <$> good)))) /\
  (forall h', sameTerminals host h' ->
     fst (execCommand h' (name :: args) print w) = r).
Proof.
  intros r command. subst r. rewrite execCommand_fst.
  unfold ptyResult, allocationFails, startFails, readFails, readToEnd.
  fold command. split; [| split; [| split]].
  - intros e. destruct (pty_Open host command ptySize) as [e0 |] eqn:O.
    { split.
      - intros [= <-]. now left.
      - intros [[= <-] | [[? _] | (? & ? & ? & ? & ? & _)]];
          [reflexivity | discriminate ..]. }
    destruct (pty_start host command ptySize) as [child | e0] eqn:S.
    + destruct (stoppedAt (reads child)) as [rd |] eqn:St.
      * destruct (stoppedAt_Some _ _ St) as (good & rest & Hr & Hg & Hrd & Hgs).
        destruct (readError rd) as [e1 |] eqn:Re.
        -- destruct (readError_Some _ _ Re) as [R1 R2]. split.
           ++ intros [= <-]. right. right. exists child, good, rd, rest.
              repeat split; auto.
           ++ intros [? | [[_ ?] |
                (child' & good' & rd' & rest' & _ & [= <-] & Hr' & Hg' & R1' & R2')]];
                [discriminate .. |].
              destruct (failed_not_good _ _ R1' R2') as [B _].
              destruct (stoppedAt_app good' rd' rest' Hg' B) as [St' _].
              rewrite <- Hr', St in St'. injection St' as ->. congruence.
        -- split; [discriminate |].
           intros [? | [[_ ?] |
             (child' & good' & rd' & rest' & _ & [= <-] & Hr' & Hg' & R1' & R2')]];
             [discriminate .. |].
           destruct (failed_not_good _ _ R1' R2') as [B Re'].
           destruct (stoppedAt_app good' rd' rest' Hg' B) as [St' _].
           rewrite <- Hr', St in St'. injection St' as ->. congruence.
      * split; [discriminate |].
        intros [? | [[_ ?] |
          (child' & good' & rd' & rest' & _ & [= <-] & Hr' & Hg' & R1' & R2')]];
          [discriminate .. |].
        destruct (failed_not_good _ _ R1' R2') as [B _].
        destruct (stoppedAt_app good' rd' rest' Hg' B) as [St' _].
        rewrite <- Hr', St in St'. discriminate.
    + split.
      * intros [= <-]. right. now left.
      * intros [? | [[_ [= <-]] | (? & ? & ? & ? & _ & ? & _)]];
          [discriminate | reflexivity | discriminate].
  - intros N. destruct (pty_Open host command ptySize) as [e0 |];
      [now destruct (N e0) |].
    destruct (pty_start host command ptySize) as [child | e0];
      [| now destruct (N e0)].
    exists child. split; [reflexivity |].
    destruct (stoppedAt (reads child)) as [rd |]; [| reflexivity].
    destruct (readError rd) as [e1 |]; [now destruct (N e1) | reflexivity].
  - intros child good (O & S & Hg & Hcase). rewrite O, S.
    destruct Hcase as [Hr | (rd & rest & Hr & Hn & Re)].
    + destruct (stoppedAt_all_good good Hg) as [St Hgs].
      rewrite Hr, St. unfold captured. now rewrite Hgs.
    + assert (B : goodRead rd = false).
      { unfold goodRead. rewrite Hn. reflexivity. }
      destruct (stoppedAt_app good rd rest Hg B) as [St Hgs].
      rewrite Hr, St, Re. unfold captured. now rewrite Hgs.
  - intros h' (HE & HP & HO & HS). rewrite execCommand_fst. unfold ptyResult.
    assert (C : commandFor h' name args = command).
    { unfold command, commandFor. now rewrite HE, HP. }
    rewrite C, <- HO. specialize (HS command ptySize).
    destruct (pty_Open host command ptySize); [reflexivity |].
    destruct (pty_start host command ptySize) as [a | e1],
             (pty_start h' command ptySize) as [b | e2]; try contradiction.
    + now rewrite HS.
    + now subst.
Qed.

(** The four cases on small hosts: a program that is not there, a
    read that fails after the output, a command that prints nothing
    and exits with status 1, and a command whose output ends with
    CR LF. *)
Lemma C7_witness :
  fst (execCommand (demoHost EmptyString) ["nope"] true (demoWorld (regular EmptyString)))
    = Failed (errors_New "exec: nope: executable file not found in $PATH") /\
  fst (execCommand eioHost ["make"] true (demoWorld (regular EmptyString)))
    = Failed (errors_New "read /dev/ptmx: input/output error") /\
  fst (execCommand (demoHost EmptyString) ["false"] true (demoWorld (regular EmptyString)))
    = Return EmptyString /\
  fst (execCommand (demoHost EmptyString) ["echo"; "a"; "b"] true
         (demoWorld (regular EmptyString)))
    = Return ("a b" +:+ nl).
Proof.
  split; [| split; [| split]].
  - apply (proj1 (C7_execCommand_errors (demoHost EmptyString) "nope" [] true
                    (demoWorld (regular EmptyString)))).
    right. left. split; reflexivity.
  - apply (proj1 (C7_execCommand_errors eioHost "make" [] true
                    (demoWorld (regular EmptyString)))).
    right. right.
    eexists _, [ {| chunk := "done" +:+ cr +:+ nl; rerr := None |} ], _, [].
    repeat split; try reflexivity. repeat constructor.
  - apply (proj1 (proj2 (proj2 (C7_execCommand_errors (demoHost EmptyString) "false" [] true
                                  (demoWorld (regular EmptyString)))))
             {| reads := []; exitStatus := 1 |} []).
    repeat split; [constructor | now left].
  - apply (proj1 (proj2 (proj2 (C7_execCommand_errors (demoHost EmptyString) "echo"
                                  ["a"; "b"] true (demoWorld (regular EmptyString)))))
             {| reads := [ {| chunk := "a b" +:+ cr +:+ nl; rerr := None |} ];
                exitStatus := 0 |}
             [ {| chunk := "a b" +:+ cr +:+ nl; rerr := None |} ]).
    repeat split; [repeat constructor | now left].
Defined.

(** C7 as the specification words it fails on the demo host, where a
    pseudo-terminal can always be had, at the command line [nope]:
    [execCommand] returns an error, the one of the command that cannot
    be started, although the allocation did not fail and no read
    failed (nothing ran, so nothing was read). *)
Lemma C7_counterexample :
  let host := demoHost EmptyString in
  let command := commandFor host "nope" [] in
  let r := fst (execCommand host ["nope"] true (demoWorld (regular EmptyString))) in
  r = Failed (errors_New "exec: nope: executable file not found in $PATH") /\
  (forall e, ~ allocationFails host command e) /\
  (forall e, ~ readFails host command e) /\
  ~ ((exists e, r = Failed e) <->
     (exists e, allocationFails host command e \/ readFails host command e)).
Proof.
  assert (A : forall e, ~ allocationFails (demoHost EmptyString)
                          (commandFor (demoHost EmptyString) "nope" []) e)
    by (intros e; discriminate).
  assert (R : forall e, ~ readFails (demoHost EmptyString)
                          (commandFor (demoHost EmptyString) "nope" []) e)
    by (intros e (child & good & rd & rest & _ & S & _); discriminate S).
  cbv zeta. split; [reflexivity | split; [exact A | split; [exact R |]]].
  intros [H _]. destruct H as [e [Ha | Hr]].
  - eexists. reflexivity.
  - exact (A e Ha).
  - exact (R e Hr).
Qed.

(** C8. The block whose first inner line is [> echo hello world] has
    one command handed to [pty.StartWithSize]: program [echo] with the
    arguments [hello] and [world] (in [exec.Cmd] the program name
    comes first in [Args]). *)
Theorem C8_directive_command host out cb o inner c w :
  isFence o = true ->
  Forall (fun l => isFence l = false) inner ->
  isFence c = true ->
  commandOf "> echo hello world" = ["echo"; "hello"; "world"] /\
  exists cmd,
    spawned (snd (scanLoop host (o :: "> echo hello world" :: inner ++ [c])
                    (outside out cb) w)) = spawned w ++ [cmd] /\
    Path cmd = "echo" /\
    Args cmd = "echo" :: ["hello"; "world"] /\
    Path cmd = Path (exec_Command "echo" ["hello"; "world"]) /\
    Args cmd = Args (exec_Command "echo" ["hello"; "world"]).
Proof.
  intros Ho Hin Hc. split; [reflexivity |].
  exists (commandFor host "echo" ["hello"; "world"]).
  split; [| repeat split].
  rewrite scanLoop_block_run by (assumption || reflexivity).
  change (commandOf "> echo hello world") with ["echo"; "hello"; "world"].
  destruct (execCommand_world host "echo" ["hello"; "world"] true w) as (S & _ & _).
  unfold bind.
  destruct (execCommand host ["echo"; "hello"; "world"] true w) as [[x | e | m] w1];
    exact S.
Qed.

Lemma C8_witness :
  commandOf "> echo hello world" = ["echo"; "hello"; "world"] /\
  exists cmd,
    spawned (snd (scanLoop (demoHost EmptyString) ("```" :: "> echo hello world" :: ["old"] ++ ["```"])
                    (outside [] []) (demoWorld (regular EmptyString)))) =
      spawned (demoWorld (regular EmptyString)) ++ [cmd] /\
    Path cmd = "echo" /\
    Args cmd = "echo" :: ["hello"; "world"] /\
    Path cmd = Path (exec_Command "echo" ["hello"; "world"]) /\
    Args cmd = Args (exec_Command "echo" ["hello"; "world"]).
Proof.
  apply (C8_directive_command (demoHost EmptyString) [] [] "```" ["old"] "```"
           (demoWorld (regular EmptyString)));
    try reflexivity.
  repeat constructor.
Defined.

(** ** The scanner: [readup] *)

(** C1, as the code has it.  An eligible block becomes four elements:
    its opening fence, its directive line, the output of the command as
    [execCommand] returned it, and a fence of just three backticks.
    The inner lines after the directive and the old closing fence are
    dropped; the directive is kept.  Whatever follows leaves the four
    where they are. *)
Theorem C1_block_replaced_after_directive
    host pre o d inner c w st w1 output w2 :
  scanLoop host pre scanInit w = (Return st, w1) ->
  inCodeBlock st = false ->
  isFence o = true ->
  strings.HasPrefix d "> " = true ->
  Forall (fun l => isFence l = false) inner ->
  isFence c = true ->
  execCommand host (commandOf d) true w1 = (Return output, w2) ->
  (exists st',
     scanLoop host (pre ++ o :: d :: inner ++ [c]) scanInit w = (Return st', w2) /\
     lines st' = lines st ++ [o; d; output; fence] /\
     inCodeBlock st' = false) /\
  (forall post st'' w'',
     scanLoop host (pre ++ (o :: d :: inner ++ [c]) ++ post) scanInit w
       = (Return st'', w'') ->
     exists tail, lines st'' = lines st ++ [o; d; output; fence] ++ tail).
Proof.
  intros Hpre Hout Ho Hd Hin Hc Hrun.
  assert (E : scanLoop host (pre ++ o :: d :: inner ++ [c]) scanInit w =
              (Return (outside (lines st ++ [o; d; output; fence])
                         (o :: d :: inner ++ [c])), w2)).
  { rewrite scanLoop_app, (bind_Return _ _ _ _ _ Hpre).
    rewrite (outside_eta st Hout) at 1.
    rewrite scanLoop_block_run by assumption.
    now rewrite (bind_Return _ _ _ _ _ Hrun). }
  split.
  - eexists. split; [exact E |]. now cbn.
  - intros post st'' w'' H.
    rewrite app_assoc, scanLoop_app, (bind_Return _ _ _ _ _ E) in H.
    apply scanLoop_keeps_prefix in H as [tail ->].
    exists tail. now rewrite <- app_assoc.
Qed.

Lemma C1_witness :
  (exists st',
     scanLoop (demoHost EmptyString) (["# Title"] ++ "```" :: "> echo hi" :: ["stale output"] ++ ["```x"])
       scanInit (demoWorld (regular EmptyString)) =
       (Return st',
        snd (execCommand (demoHost EmptyString) ["echo"; "hi"] true (demoWorld (regular EmptyString)))) /\
     lines st' = lines (outside ["# Title"] []) ++ ["```"; "> echo hi"; "hi" +:+ nl; fence] /\
     inCodeBlock st' = false) /\
  (forall post st'' w'',
     scanLoop (demoHost EmptyString)
       (["# Title"] ++ ("```" :: "> echo hi" :: ["stale output"] ++ ["```x"]) ++ post)
       scanInit (demoWorld (regular EmptyString)) = (Return st'', w'') ->
     exists tail,
       lines st'' =
         lines (outside ["# Title"] []) ++ ["```"; "> echo hi"; "hi" +:+ nl; fence] ++ tail).
Proof.
  apply (C1_block_replaced_after_directive (demoHost EmptyString) ["# Title"] "```" "> echo hi"
           ["stale output"] "```x" (demoWorld (regular EmptyString))
           (outside ["# Title"] []) (demoWorld (regular EmptyString)));
    try reflexivity.
  repeat constructor.
Defined.

(** C1 as the specification words it fails on the specification's own
    example: with [echo hi] printing "hi" and a newline, the block of
    the result still has the directive line between the opening fence
    and the output. *)
Lemma C1_counterexample :
  fst (execCommand (demoHost EmptyString) ["echo"; "hi"] true (demoWorld (regular staleDoc)))
    = Return ("hi" +:+ nl) /\
  scanned staleDoc = Return (text ["```"; "> echo hi"; "hi" +:+ nl; "```"]) /\
  text ["```"; "> echo hi"; "hi" +:+ nl; "```"] <> text ["```"; "hi" +:+ nl; "```"].
Proof. repeat split; try reflexivity. discriminate. Qed.

(** C3. A block with no inner line: when its closing fence is read the
    block holds two lines, so that index 1 is in range (it is the
    closing fence, which is no directive); the block is not eligible
    and its two lines stay as they are, whatever follows.  No document
    makes the scan panic. *)
Theorem C3_empty_block_in_bounds host pre o c w st w1 :
  scanLoop host pre scanInit w = (Return st, w1) ->
  inCodeBlock st = false ->
  isFence o = true ->
  isFence c = true ->
  (exists st',
     scanLoop host (pre ++ [o; c]) scanInit w = (Return st', w1) /\
     codeBlock st' !! 1%nat = Some c /\
     lines st' = lines st ++ [o; c] /\
     inCodeBlock st' = false) /\
  eligible (Block o [] c) = false /\
  (forall post st'' w'',
     scanLoop host (pre ++ [o; c] ++ post) scanInit w = (Return st'', w'') ->
     exists tail, lines st'' = lines st ++ [o; c] ++ tail) /\
  (forall input w0 m, fst (scanLoop host input scanInit w0) <> Panicked m).
Proof.
  intros Hpre Hout Ho Hc.
  assert (E : scanLoop host (pre ++ [o; c]) scanInit w =
              (Return (outside (lines st ++ [o; c]) [o; c]), w1)).
  { rewrite scanLoop_app, (bind_Return _ _ _ _ _ Hpre).
    rewrite (outside_eta st Hout) at 1. now apply scanLoop_block_empty. }
  split; [| split; [reflexivity | split]].
  - eexists. split; [exact E |]. now cbn.
  - intros post st'' w'' H.
    rewrite app_assoc, scanLoop_app, (bind_Return _ _ _ _ _ E) in H.
    apply scanLoop_keeps_prefix in H as [tail ->].
    exists tail. now rewrite <- app_assoc.
  - intros input w0 m. apply scanLoop_no_panic.
Qed.

Lemma C3_witness :
  (exists st',
     scanLoop (demoHost EmptyString) (["# Title"] ++ ["```"; "```"]) scanInit
       (demoWorld (regular EmptyString)) = (Return st', demoWorld (regular EmptyString)) /\
     codeBlock st' !! 1%nat = Some "```" /\
     lines st' = lines (outside ["# Title"] []) ++ ["```"; "```"] /\
     inCodeBlock st' = false) /\
  eligible (Block "```" [] "```") = false /\
  (forall post st'' w'',
     scanLoop (demoHost EmptyString) (["# Title"] ++ ["```"; "```"] ++ post) scanInit
       (demoWorld (regular EmptyString)) = (Return st'', w'') ->
     exists tail, lines st'' = lines (outside ["# Title"] []) ++ ["```"; "```"] ++ tail) /\
  (forall input w0 m, fst (scanLoop (demoHost EmptyString) input scanInit w0) <> Panicked m).
Proof.
  apply (C3_empty_block_in_bounds (demoHost EmptyString) ["# Title"] "```" "```"
           (demoWorld (regular EmptyString)) (outside ["# Title"] []) (demoWorld (regular EmptyString)));
    reflexivity.
Defined.

(** C9. A block still open when the document ends: [readup] returns,
    and the opening fence and every line after it are in the result as
    they were, also when the first of them is a directive; no command
    is started for it. *)
Theorem C9_unterminated_block host filename f pre o rest w st w1 :
  fs w !! filename = Some f ->
  fst (bufio.Scan f) = pre ++ o :: rest ->
  scanLoop host pre scanInit w = (Return st, w1) ->
  inCodeBlock st = false ->
  isFence o = true ->
  Forall (fun l => isFence l = false) rest ->
  scanLoop host (pre ++ o :: rest) scanInit w = (Return (inside (lines st) o rest), w1) /\
  readup host filename w = (Return (strings.Join (lines st ++ o :: rest) nl), w1).
Proof.
  intros Hf Hscan Hpre Hout Ho Hrest.
  assert (E : scanLoop host (pre ++ o :: rest) scanInit w =
              (Return (inside (lines st) o rest), w1)).
  { rewrite scanLoop_app, (bind_Return _ _ _ _ _ Hpre).
    rewrite (outside_eta st Hout) at 1. now apply scanLoop_open_rest. }
  split; [exact E |].
  rewrite (readup_unfold host _ _ _ Hf), Hscan.
  now rewrite (bind_Return _ _ _ _ _ E).
Qed.

Lemma C9_witness :
  scanLoop (demoHost EmptyString) (["# Title"] ++ "```sh" :: ["> echo hi"; "old"]) scanInit
    (demoWorld (regular (text ["# Title"; "```sh"; "> echo hi"; "old"]))) =
    (Return (inside (lines (outside ["# Title"] [])) "```sh" ["> echo hi"; "old"]),
     demoWorld (regular (text ["# Title"; "```sh"; "> echo hi"; "old"]))) /\
  readup (demoHost EmptyString) "README.md"
    (demoWorld (regular (text ["# Title"; "```sh"; "> echo hi"; "old"]))) =
    (Return (strings.Join (lines (outside ["# Title"] []) ++ "```sh" :: ["> echo hi"; "old"]) nl),
     demoWorld (regular (text ["# Title"; "```sh"; "> echo hi"; "old"]))).
Proof.
  apply (C9_unterminated_block (demoHost EmptyString) "README.md"
           (regular (text ["# Title"; "```sh"; "> echo hi"; "old"]))
           ["# Title"] "```sh" ["> echo hi"; "old"]);
    try reflexivity.
  repeat constructor.
Defined.

(** C5, as the code has it.  Take a document whose lines all fit the
    scanner's buffer and none of whose closed blocks is eligible.  The
    scan returns its lines, each less a carriage return at its end,
    joined by newlines; no command is started and the world is as
    before.  When no line ends in a carriage return this is the
    document itself, less one final newline if it has one. *)
Theorem C5_plain_document_reproduced host filename w D :
  fs w !! filename = Some (regular D) ->
  Forall (fun r => len r < bufio.MaxScanTokenSize) (bufio.rawLines D) ->
  Forall (fun seg => eligible seg = false)
    (segments (bufio.dropCR <$> bufio.rawLines D) None) ->
  readup host filename w =
    (Return (strings.Join (bufio.dropCR <$> bufio.rawLines D) nl), w) /\
  (Forall (fun r => bufio.dropCR r = r) (bufio.rawLines D) ->
   D = strings.Join (bufio.dropCR <$> bufio.rawLines D) nl
         +:+ (if endsWithLF D then nl else EmptyString)).
Proof.
  intros Hf Hshort Hplain.
  assert (E : fst (bufio.Scan (regular D)) = bufio.dropCR <$> bufio.rawLines D).
  { unfold bufio.Scan. cbn [data regular]. now rewrite (tokens_short _ Hshort). }
  split.
  - rewrite (readup_segments host _ _ _ Hf), E.
    unfold bind. rewrite (renderAll_plain host _ _ Hplain).
    now rewrite (flatten_segments _ None).
  - intros Hcr. rewrite (fmap_dropCR_id _ Hcr). apply Join_rawLines.
Qed.

Lemma C5_witness :
  readup (demoHost EmptyString) "README.md" (demoWorld (regular plainDoc)) =
    (Return (strings.Join (bufio.dropCR <$> bufio.rawLines plainDoc) nl),
     demoWorld (regular plainDoc)) /\
  (Forall (fun r => bufio.dropCR r = r) (bufio.rawLines plainDoc) ->
   plainDoc = strings.Join (bufio.dropCR <$> bufio.rawLines plainDoc) nl
                +:+ (if endsWithLF plainDoc then nl else EmptyString)).
Proof.
  apply (C5_plain_document_reproduced (demoHost EmptyString) "README.md"
           (demoWorld (regular plainDoc)) plainDoc);
    [reflexivity | vm_compute; repeat constructor | vm_compute; repeat constructor].
Defined.

(** C5 as the specification words it fails on a document with CR LF
    line ends and no block at all: the carriage returns are gone from
    the result, which differs from the input by more than newlines at
    the end. *)
Lemma C5_counterexample :
  Forall (fun seg => eligible seg = false)
    (segments (fst (bufio.Scan (regular crlfDoc))) None) /\
  scanned crlfDoc = Return (text ["one"; "two"]) /\
  trimNewlines crlfDoc <> trimNewlines (text ["one"; "two"]).
Proof.
  split; [vm_compute; repeat constructor | split; [reflexivity | discriminate]].
Qed.

(** C4, as the code has it.  Commands are functions of their command
    line here, so they are deterministic.  Let the first scan succeed
    with the text [T1].  If [T1] does not end in a newline, has no line
    ending in a carriage return and none that fills the scanner's
    buffer, and if no command of the document prints a line beginning
    with a fence, then scanning [T1] gives [T1] again. *)
Theorem C4_second_scan_same host f1 w file T1 w1 f2 w' :
  fs w !! f1 = Some file ->
  readup host f1 w = (Return T1, w1) ->
  fs w' !! f2 = Some (regular T1) ->
  endsWithLF T1 = false ->
  Forall plainLine (bufio.rawLines T1) ->
  outputsFenceFree host (segments (fst (bufio.Scan file)) None) ->
  fst (readup host f2 w') = Return T1.
Proof.
  intros Hf Hrun Hf' Hend Hplain Hff.
  rewrite (readup_segments host _ _ _ Hf) in Hrun.
  apply bind_inv_Return in Hrun as (O & w0 & HO & HT). injection HT as HT _.
  assert (Hlf : Forall (fun l => hasLF l = false)
                  (concat (flatten <$> segments (fst (bufio.Scan file)) None))).
  { rewrite (flatten_segments _ None). apply Scan_noLF. }
  destruct (rerender host _ (segments_wf _ None I) Hlf Hff _ _ _ HO)
    as (segs' & Hwf' & Hfl & Hfst).
  rewrite (readup_segments host _ _ _ Hf').
  assert (E : fst (bufio.Scan (regular T1)) = bufio.rawLines T1).
  { unfold bufio.Scan. cbn [data regular]. now rewrite (tokens_plain _ Hplain). }
  rewrite E.
  destruct O as [| x O].
  - cbn in HT. subst T1. reflexivity.
  - destruct (String.eqb_spec T1 EmptyString) as [-> | N]; [reflexivity |].
    rewrite (rawLines_Split T1 N Hend).
    rewrite <- HT at 1. rewrite Split_Join, <- Hfl, (segments_flatten _ Hwf').
    specialize (Hfst w'). unfold bind, ret.
    destruct (renderAll host segs' w') as [[ls | e | m] w2];
      cbn [fst] in Hfst; try discriminate.
    injection Hfst as ->. cbn [fst]. now rewrite HT.
Qed.

Lemma demo_outputs_fenceFree :
  outputsFenceFree (demoHost EmptyString) (segments (fst (bufio.Scan (regular staleDoc))) None).
Proof.
  change (segments (fst (bufio.Scan (regular staleDoc))) None)
    with [Block "```" ["> echo hi"; "stale output"] "```"].
  constructor; [| constructor].
  intros d out w [= <-] H.
  change (commandOf "> echo hi") with ["echo"; "hi"] in H.
  rewrite execCommand_fst in H. injection H as <-.
  repeat constructor.
Qed.

Lemma C4_witness :
  fst (readup (demoHost EmptyString) "README.md"
         (demoWorld (regular (text ["```"; "> echo hi"; "hi" +:+ nl; "```"]))))
    = Return (text ["```"; "> echo hi"; "hi" +:+ nl; "```"]).
Proof.
  apply (C4_second_scan_same (demoHost EmptyString) "README.md" (demoWorld (regular staleDoc))
           (regular staleDoc) (text ["```"; "> echo hi"; "hi" +:+ nl; "```"])
           (snd (readup (demoHost EmptyString) "README.md" (demoWorld (regular staleDoc)))));
    [reflexivity | reflexivity | reflexivity | reflexivity
     | vm_compute; repeat constructor | exact demo_outputs_fenceFree].
Defined.

(** C4 as the specification words it fails on the demo host, three
    times.  A command that prints a fence: the second scan takes the
    printed fence for the end of the block and adds lines.  A document
    ending in an empty line, with no block at all: each scan takes one
    newline off the end.  A line ending in two carriage returns: each
    scan takes one of them. *)
Lemma C4_counterexample :
  (scanned fenceDoc = Return (text ["```"; "> echo ```"; fence +:+ nl; "```"]) /\
   scanned (text ["```"; "> echo ```"; fence +:+ nl; "```"])
     = Return (text ["```"; "> echo ```"; fence +:+ nl; "```"; EmptyString; "```"]) /\
   text ["```"; "> echo ```"; fence +:+ nl; "```"; EmptyString; "```"]
     <> text ["```"; "> echo ```"; fence +:+ nl; "```"]) /\
  (scanned blankEndDoc = Return (text ["# Title"; EmptyString]) /\
   scanned (text ["# Title"; EmptyString]) = Return "# Title" /\
   "# Title" <> text ["# Title"; EmptyString]) /\
  (scanned twoCRDoc = Return (text ["a" +:+ cr; "b"]) /\
   scanned (text ["a" +:+ cr; "b"]) = Return (text ["a"; "b"]) /\
   text ["a"; "b"] <> text ["a" +:+ cr; "b"]).
Proof.
  repeat split; try reflexivity; discriminate.
Qed.

(** C2, first half: a file that cannot be opened makes [readup] return
    the error, with nothing done. *)
Lemma readup_open_failure_propagated host filename w :
  fs w !! filename = None ->
  exists e, readup host filename w = (Failed e, w).
Proof. apply readup_open_fails. Qed.

(** What [readup] returns does not depend on how reading the file
    ended: [scanner.Err()] is never looked at. *)
Lemma readup_blind_to_read_failure host filename w w' D flt flt' :
  fs w !! filename = Some {| data := D; fault := flt |} ->
  fs w' !! filename = Some {| data := D; fault := flt' |} ->
  fst (readup host filename w) = fst (readup host filename w').
Proof.
  intros H H'.
  rewrite (readup_segments host _ _ _ H), (readup_segments host _ _ _ H').
  unfold bufio.Scan. cbn [data fault].
  destruct (bufio.tokens (bufio.rawLines D)) as [ts err]. cbn [fst].
  apply bind_fst_indep. apply renderAll_fst_indep.
Qed.

(** C2, second half, at three inputs the program can meet.  A read
    that fails after three lines, a directory, and a line of 65536
    bytes: each time the scanner stops with an error, and [readup]
    returns what it had as a success: the lines read so far, nothing,
    and the document cut off before the long line. *)
Lemma C2_read_failure_returned_as_success :
  (snd (bufio.Scan brokenReadme) = Some (errors_New "read README.md: input/output error") /\
   fst (readup (demoHost EmptyString) "README.md" (demoWorld brokenReadme))
     = Return (text ["# Title"; "first line"; "sec"])) /\
  (snd (bufio.Scan directoryFile) = Some (errors_New "read README.md: is a directory") /\
   fst (readup (demoHost EmptyString) "README.md" (demoWorld directoryFile)) = Return EmptyString) /\
  (snd (bufio.Scan longLineReadme) = Some bufio_ErrTooLong /\
   fst (readup (demoHost EmptyString) "README.md" (demoWorld longLineReadme)) = Return "# Title").
Proof. repeat split; vm_compute; reflexivity. Qed.

(** ** The workflow: [main] *)

(** C6. Once the prompt is reached (the document scanned, the scratch
    file written, the diff taken), an answer that, trimmed and in lower
    case, is not "y" ends the process with status 0; the file worked on
    is as it was, the only new file is the scratch file, and no command
    was started after the diff (no copy).  The one assumption on the
    host: [ioutil.TempFile] creates a file that did not exist. *)
Theorem C6_decline_leaves_file host w filename content w1 tmpName w2 diffOut w3 :
  (forall m name, temp_name host m = Ok name -> m !! name = None) ->
  targetFile host w = (Return filename, w) ->
  readup host filename w = (Return content, w1) ->
  writeTempFile host filename content w1 = (Return tmpName, w2) ->
  execCommand host ["diff"; "-u"; filename; tmpName] false w2 = (Return diffOut, w3) ->
  strings.ToLower (strings.TrimSpace (bufio.ReadString (os_Stdin host) LF)) <> "y" ->
  fst (main host w) = 0 /\
  fs (snd (main host w)) !! filename = fs w !! filename /\
  fs (snd (main host w)) = <[tmpName := regular content]> (fs w) /\
  spawned (snd (main host w)) = spawned w3.
Proof.
  intros Hfresh Ht Hr Hw Hd Hn.
  rewrite (main_after_staging host _ _ _ _ _ _ _ _ Ht Hr Hw Hd).
  rewrite (declined_true host Hn). cbn [fst snd].
  destruct (staged_fs host _ _ _ _ _ _ _ _ Hr Hw Hd) as [F T].
  split; [reflexivity | split; [| split; [exact F | reflexivity]]].
  rewrite F. apply lookup_insert_ne.
  intros ->. apply Hfresh in T.
  destruct (readup_Return_opened host _ _ _ _ Hr) as [f Hf]. congruence.
Qed.

Lemma C6_witness :
  fst (main (demoHost EmptyString) (demoWorld (regular staleDoc))) = 0 /\
  fs (snd (main (demoHost EmptyString) (demoWorld (regular staleDoc)))) !! "README.md"
    = fs (demoWorld (regular staleDoc)) !! "README.md" /\
  fs (snd (main (demoHost EmptyString) (demoWorld (regular staleDoc))))
    = <["/tmp/readup1" := regular (text ["```"; "> echo hi"; "hi" +:+ nl; "```"])]>
        (fs (demoWorld (regular staleDoc))) /\
  spawned (snd (main (demoHost EmptyString) (demoWorld (regular staleDoc)))) =
    spawned (snd (execCommand (demoHost EmptyString) ["diff"; "-u"; "README.md"; "/tmp/readup1"] false
              (snd (writeTempFile (demoHost EmptyString) "README.md"
                      (text ["```"; "> echo hi"; "hi" +:+ nl; "```"])
                      (snd (readup (demoHost EmptyString) "README.md"
                              (demoWorld (regular staleDoc)))))))).
Proof.
  apply (C6_decline_leaves_file (demoHost EmptyString) (demoWorld (regular staleDoc))
           "README.md" (text ["```"; "> echo hi"; "hi" +:+ nl; "```"])
           (snd (readup (demoHost EmptyString) "README.md" (demoWorld (regular staleDoc))))
           "/tmp/readup1"
           (snd (writeTempFile (demoHost EmptyString) "README.md"
                   (text ["```"; "> echo hi"; "hi" +:+ nl; "```"])
                   (snd (readup (demoHost EmptyString) "README.md" (demoWorld (regular staleDoc))))))
           EmptyString);
    [exact demo_temp_fresh | reflexivity | reflexivity | reflexivity
     | reflexivity | discriminate].
Defined.

(** C10. Under the same conditions the scratch file outlives a
    declined update: the process exits with 0 and the file is still
    there, holding the scanned document.  Whatever the answer, the
    scratch file is gone at the end only if the answer was "y", the
    copy over the original succeeded, and the process exits with 0. *)
Theorem C10_scratch_file_kept_on_decline
    host w filename content w1 tmpName w2 diffOut w3 :
  targetFile host w = (Return filename, w) ->
  readup host filename w = (Return content, w1) ->
  writeTempFile host filename content w1 = (Return tmpName, w2) ->
  execCommand host ["diff"; "-u"; filename; tmpName] false w2 = (Return diffOut, w3) ->
  (strings.ToLower (strings.TrimSpace (bufio.ReadString (os_Stdin host) LF)) <> "y" ->
   fst (main host w) = 0 /\
   fs (snd (main host w)) !! tmpName = Some (regular content)) /\
  (fs (snd (main host w)) !! tmpName = None ->
   strings.ToLower (strings.TrimSpace (bufio.ReadString (os_Stdin host) LF)) = "y" /\
   (exists w', cp_Run host tmpName filename (prompted diffOut w3) = (Return tt, w')) /\
   fst (main host w) = 0).
Proof.
  intros Ht Hr Hw Hd.
  rewrite (main_after_staging host _ _ _ _ _ _ _ _ Ht Hr Hw Hd).
  destruct (staged_fs host _ _ _ _ _ _ _ _ Hr Hw Hd) as [F _].
  split.
  - intros Hn. rewrite (declined_true host Hn). cbn [fst snd].
    split; [reflexivity |]. rewrite F. apply lookup_insert_eq.
  - unfold declined.
    destruct (String.eqb_spec
                (strings.ToLower (strings.TrimSpace (bufio.ReadString (os_Stdin host) LF)))
                "y") as [E | N]; cbn [negb].
    + intros H. split; [exact E |].
      apply apply_update_removed; [| exact H].
      rewrite F, lookup_insert_eq. eauto.
    + cbn [snd]. rewrite F, lookup_insert_eq. discriminate.
Qed.

Lemma C10_witness :
  (strings.ToLower (strings.TrimSpace (bufio.ReadString (os_Stdin (demoHost ("n" +:+ nl))) LF))
     <> "y" ->
   fst (main (demoHost ("n" +:+ nl)) (demoWorld (regular staleDoc))) = 0 /\
   fs (snd (main (demoHost ("n" +:+ nl)) (demoWorld (regular staleDoc)))) !! "/tmp/readup1"
     = Some (regular (text ["```"; "> echo hi"; "hi" +:+ nl; "```"]))) /\
  (fs (snd (main (demoHost ("n" +:+ nl)) (demoWorld (regular staleDoc)))) !! "/tmp/readup1"
     = None ->
   strings.ToLower (strings.TrimSpace (bufio.ReadString (os_Stdin (demoHost ("n" +:+ nl))) LF))
     = "y" /\
   (exists w',
      cp_Run (demoHost ("n" +:+ nl)) "/tmp/readup1" "README.md"
        (prompted EmptyString
           (snd (execCommand (demoHost ("n" +:+ nl))
                   ["diff"; "-u"; "README.md"; "/tmp/readup1"] false
                   (snd (writeTempFile (demoHost ("n" +:+ nl)) "README.md"
                           (text ["```"; "> echo hi"; "hi" +:+ nl; "```"])
                           (snd (readup (demoHost ("n" +:+ nl)) "README.md"
                                   (demoWorld (regular staleDoc))))))))) = (Return tt, w')) /\
   fst (main (demoHost ("n" +:+ nl)) (demoWorld (regular staleDoc))) = 0).
Proof.
  apply (C10_scratch_file_kept_on_decline (demoHost ("n" +:+ nl))
           (demoWorld (regular staleDoc))
           "README.md" (text ["```"; "> echo hi"; "hi" +:+ nl; "```"])
           (snd (readup (demoHost ("n" +:+ nl)) "README.md" (demoWorld (regular staleDoc))))
           "/tmp/readup1"
           (snd (writeTempFile (demoHost ("n" +:+ nl)) "README.md"
                   (text ["```"; "> echo hi"; "hi" +:+ nl; "```"])
                   (snd (readup (demoHost ("n" +:+ nl)) "README.md"
                           (demoWorld (regular staleDoc))))))
           EmptyString);
    reflexivity.
Defined.

(** The two ends of the workflow on the demo host: declined, the README
    is untouched and the scratch file remains; accepted, the README has
    the new text and the scratch file is gone. *)
Example main_declined :
  let r := main (demoHost ("n" +:+ nl)) (demoWorld (regular staleDoc)) in
  fst r = 0 /\
  map_to_list (fs (snd r)) =
    [("/tmp/readup1", regular (text ["```"; "> echo hi"; "hi" +:+ nl; "```"]));
     ("README.md", regular staleDoc)].
Proof. split; vm_compute; reflexivity. Qed.

Example main_accepted :
  let r := main (demoHost (" Y " +:+ nl)) (demoWorld (regular staleDoc)) in
  fst r = 0 /\
  map_to_list (fs (snd r)) =
    [("README.md", regular (text ["```"; "> echo hi"; "hi" +:+ nl; "```"]))].
Proof. split; vm_compute; reflexivity. Qed.

(** * Further properties *)

(** ** The two formats *)

Section FormatFacts.

Lemma hasLF_append a b : hasLF (a +:+ b) = hasLF a || hasLF b.
Proof.
  induction a as [| c a IH]; [reflexivity |].
  rewrite append_cons. cbn [hasLF]. now rewrite IH, Bool.orb_assoc.
Qed.

Lemma Split_noLF s : Forall (fun l => hasLF l = false) (strings.Split s nl).
Proof.
  induction s as [| c s IH]; [repeat constructor |].
  destruct (Ascii.eqb c LF) eqn:N.
  - apply Ascii.eqb_eq in N. subst c. rewrite Split_nl_LF. now constructor.
  - rewrite (Split_nl_other c s N). destruct (strings.Split s nl) as [| h t].
    + constructor; [| constructor]. cbn [hasLF]. now rewrite N.
    + inversion IH; subst. constructor; [| assumption]. cbn [hasLF]. now rewrite N.
Qed.

(** Cutting a text at its newlines and joining the pieces with
    newlines gives the text back. *)
Lemma Join_Split s : strings.Join (strings.Split s nl) nl = s.
Proof.
  induction s as [| c s IH]; [reflexivity |].
  destruct (Split_nl_cons s) as (h & t & E). rewrite E in IH.
  destruct (Ascii.eqb c LF) eqn:N.
  - apply Ascii.eqb_eq in N. subst c. rewrite Split_nl_LF, E, Join_cons, IH.
    reflexivity.
  - rewrite (Split_nl_other c s N), E.
    assert (J : strings.Join (String c h :: t) nl = String c (strings.Join (h :: t) nl)).
    { destruct t; reflexivity. }
    now rewrite J, IH.
Qed.

(** Lines without a newline, joined and cut again, are the same
    lines. *)
Lemma Split_Join_lines x (l : list string) :
  Forall (fun e => hasLF e = false) (x :: l) ->
  strings.Split (strings.Join (x :: l) nl) nl = x :: l.
Proof. intros H. rewrite Split_Join. now apply concat_Split_noLF. Qed.

Lemma greyLine_noLF line : hasLF line = false -> hasLF (greyLine line) = false.
Proof.
  intros H. unfold greyLine. destruct (String.eqb line EmptyString); [exact H |].
  rewrite !hasLF_append, H. reflexivity.
Qed.

Lemma diffLine_noLF line : hasLF line = false -> hasLF (diffLine line) = false.
Proof.
  intros H. unfold diffLine.
  destruct (removed line); [| destruct (added line)];
    rewrite ?hasLF_append, ?H; try reflexivity; exact H.
Qed.

Lemma fmap_noLF (f : string -> string) (l : list string) :
  (forall x, hasLF x = false -> hasLF (f x) = false) ->
  Forall (fun e => hasLF e = false) l ->
  Forall (fun e => hasLF e = false) (f <$> l).
Proof.
  intros Hf. induction 1 as [| x l Hx _ IH]; [constructor |].
  cbn [fmap list_fmap]. constructor; [now apply Hf | exact IH].
Qed.

Lemma Split_Join_fmap (f : string -> string) s :
  (forall x, hasLF x = false -> hasLF (f x) = false) ->
  strings.Split (strings.Join (f <$> strings.Split s nl) nl) nl = f <$> strings.Split s nl.
Proof.
  intros Hf. pose proof (fmap_noLF f _ Hf (Split_noLF s)) as H.
  destruct (Split_nl_cons s) as (h & t & E). rewrite E in *.
  cbn [fmap list_fmap] in *. now apply Split_Join_lines.
Qed.

End FormatFacts.

(** X1. [greyFormat] keeps the lines of its input: the result has the
    same lines in the same order, an empty line left empty and every
    other line indented by two spaces between the grey and the reset
    escape sequences. *)
Theorem greyFormat_lines s :
  strings.Split (greyFormat s) nl = greyLine <$> strings.Split s nl.
Proof. apply (Split_Join_fmap greyLine), greyLine_noLF. Qed.

(** X2. [diffFormat] keeps the lines of its input: a line beginning
    with '<' or '-' is wrapped in red, otherwise one beginning with
    '>' or '+' in green, every other line is left as it is. *)
Theorem diffFormat_lines s :
  strings.Split (diffFormat s) nl = diffLine <$> strings.Split s nl.
Proof. apply (Split_Join_fmap diffLine), diffLine_noLF. Qed.

(** X3. A text none of whose lines begins with '<', '-', '>' or '+'
    goes through [diffFormat] unchanged; so does the empty output of a
    [diff] that found nothing. *)
Theorem diffFormat_unmarked s :
  Forall (fun line => removed line = false /\ added line = false) (strings.Split s nl) ->
  diffFormat s = s.
Proof.
  intros H. unfold diffFormat.
  assert (E : (fun line =>
                 if strings.HasPrefix line "<" || strings.HasPrefix line "-"
                 then String ESC "[31m" +:+ line +:+ String ESC "[0m"
                 else if strings.HasPrefix line ">" || strings.HasPrefix line "+"
                 then String ESC "[32m" +:+ line +:+ String ESC "[0m"
                 else line) <$> strings.Split s nl = strings.Split s nl).
  { induction H as [| x l [Hr Ha] _ IH]; [reflexivity |].
    cbn [fmap list_fmap]. unfold removed, added in Hr, Ha.
    rewrite Hr, Ha. f_equal. exact IH. }
  cbv zeta. rewrite E. apply Join_Split.
Qed.

Lemma diffFormat_unmarked_witness :
  diffFormat (text [" context"; "@@ -1,2 +1,2 @@"; EmptyString]) =
    text [" context"; "@@ -1,2 +1,2 @@"; EmptyString].
Proof.
  apply (diffFormat_unmarked (text [" context"; "@@ -1,2 +1,2 @@"; EmptyString])).
  vm_compute. repeat constructor.
Defined.

(** ** More on [execCommand] *)

Lemma deleteByte_absent b s : hasByte b (deleteByte b s) = false.
Proof.
  induction s as [| c s IH]; [reflexivity |]. cbn [deleteByte].
  destruct (Ascii.eqb c b) eqn:E; [exact IH |].
  cbn [hasByte]. now rewrite E, IH.
Qed.



(** X5. Whatever [execCommand] returns as output holds no carriage
    return. *)
Theorem execCommand_output_no_CR host cmd print w output :
  fst (execCommand host cmd print w) = Return output ->
  hasByte CR output = false.
Proof.
  destruct cmd as [| name args].
  - unfold execCommand, bind. destruct print; discriminate.
  - rewrite execCommand_fst. unfold ptyResult.
    destruct (pty_Open host _ _) as [e |]; [discriminate |].
    destruct (pty_start host _ _) as [child | e]; [| discriminate].
    destruct (stoppedAt (reads child)) as [r |]; [destruct (readError r) |];
      try discriminate; intros [= <-]; apply deleteByte_absent.
Qed.

Lemma execCommand_output_no_CR_witness :
  hasByte CR ("a b" +:+ nl) = false.
Proof.
  apply (execCommand_output_no_CR (demoHost EmptyString) ["echo"; "a"; "b"] true
           (demoWorld (regular EmptyString)) ("a b" +:+ nl)).
  reflexivity.
Defined.

(** ** More on the scanner *)

Section ScannerMore.

Context (host : Host).

Lemma execCommand_frame cmd print w :
  fs (snd (execCommand host cmd print w)) = fs w /\
  stderr (snd (execCommand host cmd print w)) = stderr w.
Proof.
  destruct cmd as [| name args].
  - unfold execCommand, bind. now destruct print.
  - destruct (execCommand_world host name args print w) as (_ & F & E). now split.
Qed.

Lemma render_frame seg w :
  fs (snd (render host seg w)) = fs w /\ stderr (snd (render host seg w)) = stderr w.
Proof.
  unfold render. destruct (directive seg) as [d |]; [| now split].
  destruct seg as [| o inner c |]; try now split.
  unfold bind. pose proof (execCommand_frame (commandOf d) true w) as E.
  now destruct (execCommand host (commandOf d) true w) as [[x | e | m] w1].
Qed.

Lemma renderAll_frame segs : forall w,
  fs (snd (renderAll host segs w)) = fs w /\
  stderr (snd (renderAll host segs w)) = stderr w.
Proof.
  induction segs as [| seg segs IH]; intros w; [now split |].
  cbn [renderAll]. unfold bind, ret.
  pose proof (render_frame seg w) as E.
  destruct (render host seg w) as [[a | e | m] w1]; try exact E.
  specialize (IH w1).
  destruct (renderAll host segs w1) as [[b | e | m] w2];
    cbn [snd] in *; destruct E, IH; split; congruence.
Qed.

Lemma renderAll_Failed segs : forall w e w',
  renderAll host segs w = (Failed e, w') ->
  exists seg d,
    In seg segs /\ directive seg = Some d /\
    forall w0, fst (execCommand host (commandOf d) true w0) = Failed e.
Proof.
  induction segs as [| seg segs IH]; intros w e w' H; [discriminate |].
  cbn [renderAll] in H. unfold bind at 1 in H.
  destruct (render host seg w) as [[a | e1 | m] w1] eqn:R; try discriminate.
  - unfold bind, ret in H.
    destruct (renderAll host segs w1) as [[b | e2 | m] w2] eqn:R2; try discriminate.
    injection H as <- <-.
    destruct (IH _ _ _ R2) as (seg' & d & Hin & Hd & Hf).
    exists seg', d. split; [now right | now split].
  - injection H as <- <-. unfold render in R.
    destruct (directive seg) as [d |] eqn:D; [| discriminate].
    destruct seg as [| o inner c |]; try discriminate.
    exists (Block o inner c), d. split; [now left | split; [exact D |]].
    intros w0. rewrite (execCommand_fst_indep host (commandOf d) true w0 w).
    unfold bind in R.
    destruct (execCommand host (commandOf d) true w) as [[x | e2 | m] w2];
      try discriminate. now injection R as <- _.
Qed.

Lemma renderAll_spawned segs : forall w O w1,
  renderAll host segs w = (Return O, w1) ->
  spawned w1 = spawned w ++ commandsOf host segs.
Proof.
  induction segs as [| seg segs IH]; intros w O w1 H.
  - injection H as _ <-. cbn. now rewrite app_nil_r.
  - apply renderAll_cons_inv in H as (a & w0 & b & Ha & Hb & _).
    rewrite (IH _ _ _ Hb). cbn [commandsOf flat_map].
    fold (commandsOf host segs). rewrite app_assoc. f_equal.
    unfold render in Ha. destruct (directive seg) as [d |] eqn:D.
    + destruct seg as [| o inner c |]; try discriminate.
      apply bind_inv_Return in Ha as (out & w2 & Hrun & Ha). injection Ha as _ <-.
      destruct (Split_space_cons (string_drop 2 d)) as (name & args & E).
      unfold commandOf in *. rewrite E in *.
      destruct (execCommand_world host name args true w) as (S & _).
      now rewrite Hrun in S.
    + injection Ha as _ <-. now rewrite app_nil_r.
Qed.

(** The states the loop can be in. *)
Lemma scanLoop_state input : forall out cur cb w st w',
  curOk cur ->
  scanLoop host input (stateOf out cur cb) w = (Return st, w') ->
  exists out' cur' cb', st = stateOf out' cur' cb' /\ curOk cur'.
Proof.
  induction input as [| l rest IH]; intros out cur cb w st w' Hok H.
  - injection H as <- _. now exists out, cur, cb.
  - cbn [scanLoop] in H. apply bind_inv_Return in H as (st1 & w1 & H1 & H2).
    destruct cur as [[o acc] |]; cbn [stateOf curOk] in *.
    + destruct Hok as [Ho Hacc]. destruct (isFence l) eqn:F.
      * destruct acc as [| d acc].
        -- rewrite (scanLine_close_empty host out o l w F) in H1.
           injection H1 as <- <-. now apply (IH _ None _ _ _ _ I H2).
        -- destruct (strings.HasPrefix d "> ") eqn:D.
           ++ rewrite (scanLine_close_run host out o d acc l w F D) in H1.
              apply bind_inv_Return in H1 as (output & w2 & _ & H1).
              injection H1 as <- <-. now apply (IH _ None _ _ _ _ I H2).
           ++ rewrite (scanLine_close_plain host out o d acc l w F D) in H1.
              injection H1 as <- <-. now apply (IH _ None _ _ _ _ I H2).
      * rewrite (scanLine_inner host out o acc l w F) in H1.
        injection H1 as <- <-.
        apply (IH out (Some (o, acc ++ [l])) cb w st w'); [| exact H2].
        split; [assumption |]. apply Forall_app. split; [assumption | now constructor].
    + destruct (isFence l) eqn:F.
      * rewrite (scanLine_open host out cb l w F) in H1. injection H1 as <- <-.
        apply (IH out (Some (l, [])) cb w st w'); [| exact H2]. now split.
      * rewrite (scanLine_text host out cb l w F) in H1. injection H1 as <- <-.
        now apply (IH _ None _ _ _ _ I H2).
Qed.

End ScannerMore.

(** X6. A command that fails aborts the scan: [readup] returns the
    error of the first eligible block whose command fails, and the
    world is as that command left it, so that no later command is
    started and nothing more is printed. *)
Theorem runner_failure_aborts host pre o d inner c post w st w1 e w2 :
  scanLoop host pre scanInit w = (Return st, w1) ->
  inCodeBlock st = false ->
  isFence o = true ->
  strings.HasPrefix d "> " = true ->
  Forall (fun l => isFence l = false) inner ->
  isFence c = true ->
  execCommand host (commandOf d) true w1 = (Failed e, w2) ->
  scanLoop host (pre ++ (o :: d :: inner ++ [c]) ++ post) scanInit w = (Failed e, w2) /\
  forall filename file,
    fs w !! filename = Some file ->
    fst (bufio.Scan file) = pre ++ (o :: d :: inner ++ [c]) ++ post ->
    readup host filename w = (Failed e, w2).
Proof.
  intros Hpre Hout Ho Hd Hin Hc Hrun.
  assert (E : scanLoop host (pre ++ (o :: d :: inner ++ [c]) ++ post) scanInit w
              = (Failed e, w2)).
  { rewrite scanLoop_app, (bind_Return _ _ _ _ _ Hpre), scanLoop_app.
    rewrite (outside_eta st Hout) at 1.
    unfold bind at 1. rewrite scanLoop_block_run by assumption.
    unfold bind. now rewrite Hrun. }
  split; [exact E |].
  intros filename file Hf Hscan.
  rewrite (readup_unfold host _ _ _ Hf), Hscan. unfold bind. now rewrite E.
Qed.

Lemma runner_failure_aborts_witness :
  scanLoop (demoHost EmptyString)
    (["# Title"] ++ ("```" :: "> nope" :: ["old"] ++ ["```"]) ++ ["```"; "> echo hi"; "```"])
    scanInit (demoWorld (regular EmptyString)) =
    (Failed (errors_New "exec: nope: executable file not found in $PATH"),
     snd (execCommand (demoHost EmptyString) ["nope"] true (demoWorld (regular EmptyString)))) /\
  forall filename file,
    fs (demoWorld (regular EmptyString)) !! filename = Some file ->
    fst (bufio.Scan file) =
      ["# Title"] ++ ("```" :: "> nope" :: ["old"] ++ ["```"]) ++ ["```"; "> echo hi"; "```"] ->
    readup (demoHost EmptyString) filename (demoWorld (regular EmptyString)) =
      (Failed (errors_New "exec: nope: executable file not found in $PATH"),
       snd (execCommand (demoHost EmptyString) ["nope"] true (demoWorld (regular EmptyString)))).
Proof.
  apply (runner_failure_aborts (demoHost EmptyString) ["# Title"] "```" "> nope" ["old"] "```"
           ["```"; "> echo hi"; "```"] (demoWorld (regular EmptyString))
           (outside ["# Title"] []) (demoWorld (regular EmptyString)));
    try reflexivity.
  repeat constructor.
Defined.

Lemma readup_no_panic host filename w m :
  fst (readup host filename w) <> Panicked m.
Proof.
  destruct (fs w !! filename) as [file |] eqn:Hf.
  - rewrite (readup_segments host _ _ _ Hf). unfold bind, ret.
    pose proof (renderAll_no_panic host (segments (fst (bufio.Scan file)) None) w) as N.
    destruct (renderAll host (segments (fst (bufio.Scan file)) None) w)
      as [[ls | e1 | m1] w1]; cbn [fst] in *; try discriminate.
    intros [= ->]. now apply (N m).
  - destruct (readup_open_fails host _ _ Hf) as [e ->]. discriminate.
Qed.

(** X7. The only errors of [readup]: the file cannot be opened, or the
    command of one of the document's eligible blocks fails with that
    error.  It never panics. *)
Theorem readup_failure_cause host filename w :
  (forall e w',
     readup host filename w = (Failed e, w') ->
     fs w !! filename = None \/
     exists file seg d,
       fs w !! filename = Some file /\
       In seg (segments (fst (bufio.Scan file)) None) /\
       directive seg = Some d /\
       forall w0, fst (execCommand host (commandOf d) true w0) = Failed e) /\
  (forall m, fst (readup host filename w) <> Panicked m).
Proof.
  split.
  - intros e w' H. destruct (fs w !! filename) as [file |] eqn:Hf; [right | now left].
    rewrite (readup_segments host _ _ _ Hf) in H. unfold bind, ret in H.
    destruct (renderAll host (segments (fst (bufio.Scan file)) None) w)
      as [[ls | e1 | m] w1] eqn:R; try discriminate.
    injection H as <- <-.
    destruct (renderAll_Failed host _ _ _ _ R) as (seg & d & Hin & Hd & Hrun).
    now exists file, seg, d.
  - intros m. apply readup_no_panic.
Qed.

(** X8. A scan that succeeds has started one command for each eligible
    block of the document and no other, in the order of the blocks. *)
Theorem readup_starts_commands_in_order host filename file w T w1 :
  fs w !! filename = Some file ->
  readup host filename w = (Return T, w1) ->
  spawned w1 = spawned w ++ commandsOf host (segments (fst (bufio.Scan file)) None).
Proof.
  intros Hf H. rewrite (readup_segments host _ _ _ Hf) in H.
  apply bind_inv_Return in H as (O & w0 & HO & H). injection H as _ <-.
  now apply renderAll_spawned in HO.
Qed.

Lemma readup_starts_commands_in_order_witness :
  spawned (snd (readup (demoHost EmptyString) "README.md"
                  (demoWorld (regular (text ["```"; "> echo a"; "```"; "```"; "x"; "```";
                                             "```"; "> echo b c"; "old"; "```"]))))) =
    spawned (demoWorld (regular (text ["```"; "> echo a"; "```"; "```"; "x"; "```";
                                       "```"; "> echo b c"; "old"; "```"])))
      ++ commandsOf (demoHost EmptyString)
           (segments (fst (bufio.Scan (regular (text ["```"; "> echo a"; "```"; "```"; "x"; "```";
                                                      "```"; "> echo b c"; "old"; "```"])))) None).
Proof.
  apply (readup_starts_commands_in_order (demoHost EmptyString) "README.md"
           (regular (text ["```"; "> echo a"; "```"; "```"; "x"; "```";
                           "```"; "> echo b c"; "old"; "```"]))
           (demoWorld (regular (text ["```"; "> echo a"; "```"; "```"; "x"; "```";
                                      "```"; "> echo b c"; "old"; "```"])))
           (text ["```"; "> echo a"; "a" +:+ nl; "```"; "```"; "x"; "```";
                  "```"; "> echo b c"; "b c" +:+ nl; "```"]));
    reflexivity.
Defined.

(** X9. The invariant of the loop of [readup].  Whatever has been
    read, when the scanner is inside a block the block read so far is
    the end of [lines], it begins with its opening fence and holds no
    other fence; so [codeBlock] is never empty there, and [blockStart]
    points into [lines] when the block closes. *)
Theorem scanner_invariant host input w st w' :
  scanLoop host input scanInit w = (Return st, w') ->
  inCodeBlock st = true ->
  exists out o acc,
    lines st = out ++ codeBlock st /\
    codeBlock st = o :: acc /\
    isFence o = true /\
    Forall (fun l => isFence l = false) acc /\
    forall c, slice_to (lines st ++ [c])
                (llen (lines st ++ [c]) - llen (codeBlock st ++ [c]) + 2)
              = Some (out ++ take 2 (codeBlock st ++ [c])).
Proof.
  intros H Hin.
  destruct (scanLoop_state host input [] None [] w st w' I H)
    as (out & cur & cb & -> & Hok).
  destruct cur as [[o acc] |]; [| discriminate].
  destruct Hok as [Ho Hacc]. exists out, o, acc. cbn [stateOf inside lines codeBlock].
  repeat split; try assumption.
  intros c. rewrite <- app_assoc.
  apply (blockStart_in_range out ((o :: acc) ++ [c])).
  rewrite length_app. cbn. lia.
Qed.

Lemma scanner_invariant_witness :
  exists out o acc,
    lines (inside ["# Title"] "```sh" ["> echo hi"]) =
      out ++ codeBlock (inside ["# Title"] "```sh" ["> echo hi"]) /\
    codeBlock (inside ["# Title"] "```sh" ["> echo hi"]) = o :: acc /\
    isFence o = true /\
    Forall (fun l => isFence l = false) acc /\
    forall c, slice_to (lines (inside ["# Title"] "```sh" ["> echo hi"]) ++ [c])
                (llen (lines (inside ["# Title"] "```sh" ["> echo hi"]) ++ [c])
                 - llen (codeBlock (inside ["# Title"] "```sh" ["> echo hi"]) ++ [c]) + 2)
              = Some (out ++ take 2 (codeBlock (inside ["# Title"] "```sh" ["> echo hi"]) ++ [c])).
Proof.
  apply (scanner_invariant (demoHost EmptyString) ["# Title"; "```sh"; "> echo hi"]
           (demoWorld (regular EmptyString))
           (inside ["# Title"] "```sh" ["> echo hi"])
           (demoWorld (regular EmptyString)));
    reflexivity.
Defined.

(** X10. Documents compose.  When the scan of a first part ends
    outside a block, the scan of the two parts one after the other
    gives the lines of the first scan followed by those of the second,
    and leaves the world as the two scans in a row do: what comes
    later never changes what a finished part has become. *)
Theorem scan_of_two_parts host pre post w st1 w1 st2 w2 :
  scanLoop host pre scanInit w = (Return st1, w1) ->
  inCodeBlock st1 = false ->
  scanLoop host post scanInit w1 = (Return st2, w2) ->
  exists st,
    scanLoop host (pre ++ post) scanInit w = (Return st, w2) /\
    lines st = lines st1 ++ lines st2.
Proof.
  intros H1 Hout H2.
  rewrite scanLoop_app, (bind_Return _ _ _ _ _ H1), (outside_eta st1 Hout).
  cbn [lines outside codeBlock].
  pose proof (scanLoop_segments host post (lines st1) None (codeBlock st1) w1) as E.
  pose proof (scanLoop_segments host post [] None [] w1) as E0.
  cbn [stateOf] in E, E0. change (outside [] []) with scanInit in E0.
  unfold bind at 1 in E0. rewrite H2 in E0. cbn [ret] in E0.
  unfold bind in E0, E.
  destruct (renderAll host (segments post None) w1) as [[ls | e | m] w3];
    try discriminate.
  cbn [ret app] in E0. injection E0 as E0l E0w.
  destruct (scanLoop host post (outside (lines st1) (codeBlock st1)) w1)
    as [[st | e | m] w4]; try discriminate.
  cbn [ret] in E. injection E as El Ew.
  exists st. subst. now split.
Qed.

Lemma scan_of_two_parts_witness :
  exists st,
    scanLoop (demoHost EmptyString)
      (["```"; "> echo a"; "old"; "```"] ++ ["text"; "```"; "> echo b"; "```"])
      scanInit (demoWorld (regular EmptyString)) =
      (Return st,
       snd (scanLoop (demoHost EmptyString) ["text"; "```"; "> echo b"; "```"] scanInit
              (snd (scanLoop (demoHost EmptyString) ["```"; "> echo a"; "old"; "```"] scanInit
                      (demoWorld (regular EmptyString)))))) /\
    lines st =
      lines (outside ["```"; "> echo a"; "a" +:+ nl; "```"] ["```"; "> echo a"; "old"; "```"])
        ++ lines (outside ["text"; "```"; "> echo b"; "b" +:+ nl; "```"]
                    ["```"; "> echo b"; "```"]).
Proof.
  apply (scan_of_two_parts (demoHost EmptyString)
           ["```"; "> echo a"; "old"; "```"] ["text"; "```"; "> echo b"; "```"]
           (demoWorld (regular EmptyString))
           (outside ["```"; "> echo a"; "a" +:+ nl; "```"] ["```"; "> echo a"; "old"; "```"])
           (snd (scanLoop (demoHost EmptyString) ["```"; "> echo a"; "old"; "```"] scanInit
                   (demoWorld (regular EmptyString)))));
    reflexivity.
Defined.

Lemma readup_writes_no_file_aux host filename w :
  fs (snd (readup host filename w)) = fs w /\
  stderr (snd (readup host filename w)) = stderr w.
Proof.
  destruct (fs w !! filename) as [f |] eqn:H.
  - rewrite (readup_segments host _ _ _ H).
    pose proof (renderAll_frame host (segments (fst (bufio.Scan f)) None) w) as E.
    unfold bind, ret.
    now destruct (renderAll host (segments (fst (bufio.Scan f)) None) w)
      as [[ls | e | m] w1].
  - destruct (readup_open_fails host _ _ H) as [e ->]. now split.
Qed.

(** X11. [readup] writes no file and nothing to standard error,
    whether it succeeds, fails or cannot open the file; the document
    is changed, if at all, only by [main] after the prompt. *)
Theorem readup_writes_no_file host filename w :
  fs (snd (readup host filename w)) = fs w /\
  stderr (snd (readup host filename w)) = stderr w.
Proof. apply readup_writes_no_file_aux. Qed.

(** ** More on the workflow *)

Section WorkflowMore.

Context (host : Host).

Lemma accepted_false :
  strings.ToLower (strings.TrimSpace (bufio.ReadString (os_Stdin host) LF)) = "y" ->
  declined host = false.
Proof. intros H. unfold declined. now rewrite H. Qed.


Lemma cp_Run_fault src dst w e :
  run_fault host (exec_Command "cp" [src; dst]) = Some e ->
  exists w',
    cp_Run host src dst w = (Failed e, w') /\ fs w' = fs w /\ stderr w' = stderr w.
Proof.
  intros Hr. unfold cp_Run, bind, log_spawn. rewrite Hr. cbn. eauto.
Qed.


Lemma orDie_Failed_eq {A} (m : IO A) (k : A -> Process) w e w' :
  m w = (Failed e, w') ->
  orDie m k w = (1, snd (fmt_Eprintf ("Error: " +:+ error_Error e +:+ nl) w')).
Proof. intros H. unfold orDie. now rewrite H. Qed.

(** The exit status of a step that does not panic, followed by steps
    that exit with 0 or 1. *)
Lemma orDie_status {A} (m : IO A) (k : A -> Process) w :
  (forall msg, fst (m w) <> Panicked msg) ->
  (forall a w', fst (k a w') = 0 \/ fst (k a w') = 1) ->
  fst (orDie m k w) = 0 \/ fst (orDie m k w) = 1.
Proof.
  intros Hm Hk. unfold orDie. destruct (m w) as [[a | e | msg] w'].
  - apply Hk.
  - now right.
  - now destruct (Hm msg).
Qed.

Lemma cp_Run_no_panic src dst w msg : fst (cp_Run host src dst w) <> Panicked msg.
Proof.
  unfold cp_Run, bind, log_spawn.
  destruct (run_fault host _) as [e |]; [discriminate |].
  cbn [fs]. destruct (fs w !! src) as [f |]; [| discriminate].
  destruct (fault f); discriminate.
Qed.

Lemma os_Remove_no_panic name w msg : fst (os_Remove host name w) <> Panicked msg.
Proof.
  unfold os_Remove. destruct (remove_fault host name) as [e |]; [discriminate |].
  destruct (fs w !! name); discriminate.
Qed.

Lemma writeTempFile_no_panic filename content w msg :
  fst (writeTempFile host filename content w) <> Panicked msg.
Proof.
  unfold writeTempFile, ioutil_TempFile, bind.
  destruct (temp_name host (fs w)); discriminate.
Qed.

End WorkflowMore.



(** X13. When the scan fails (the file cannot be opened, or a command
    fails) [main] exits with status 1 after printing the error on
    standard error as "Error: <message>" and a newline; no scratch
    file is created, no file is changed, and there is no prompt. *)
Theorem main_scan_failure host w filename e w1 :
  targetFile host w = (Return filename, w) ->
  readup host filename w = (Failed e, w1) ->
  fst (main host w) = 1 /\
  fs (snd (main host w)) = fs w /\
  stderr (snd (main host w)) = stderr w +:+ ("Error: " +:+ error_Error e +:+ nl) /\
  stdout (snd (main host w)) = stdout w1.
Proof.
  intros Ht Hr. unfold main.
  rewrite (orDie_Return _ _ _ _ _ Ht), (orDie_Failed_eq _ _ _ _ _ Hr).
  destruct (readup_writes_no_file_aux host filename w) as [F E].
  rewrite Hr in F, E. cbn [fst snd fmt_Eprintf fs stderr stdout] in *.
  now rewrite F, E.
Qed.

Lemma main_scan_failure_witness :
  fst (main (demoHost EmptyString) (demoWorld (regular nopeDoc))) = 1 /\
  fs (snd (main (demoHost EmptyString) (demoWorld (regular nopeDoc)))) =
    fs (demoWorld (regular nopeDoc)) /\
  stderr (snd (main (demoHost EmptyString) (demoWorld (regular nopeDoc)))) =
    stderr (demoWorld (regular nopeDoc))
      +:+ ("Error: "
           +:+ error_Error (errors_New "exec: nope: executable file not found in $PATH")
           +:+ nl) /\
  stdout (snd (main (demoHost EmptyString) (demoWorld (regular nopeDoc)))) =
    stdout (snd (readup (demoHost EmptyString) "README.md" (demoWorld (regular nopeDoc)))).
Proof.
  apply (main_scan_failure (demoHost EmptyString) (demoWorld (regular nopeDoc)) "README.md"
           (errors_New "exec: nope: executable file not found in $PATH")
           (snd (readup (demoHost EmptyString) "README.md" (demoWorld (regular nopeDoc)))));
    reflexivity.
Defined.

(** X14. When the copy fails after the answer "y", [main] exits with
    status 1 and prints the error; [os.Remove] is not reached, so the
    scratch file stays behind, as [writeTempFile] left it. *)
Theorem main_copy_failure host w filename content w1 tmpName w2 diffOut w3 e :
  targetFile host w = (Return filename, w) ->
  readup host filename w = (Return content, w1) ->
  writeTempFile host filename content w1 = (Return tmpName, w2) ->
  execCommand host ["diff"; "-u"; filename; tmpName] false w2 = (Return diffOut, w3) ->
  strings.ToLower (strings.TrimSpace (bufio.ReadString (os_Stdin host) LF)) = "y" ->
  run_fault host (exec_Command "cp" [tmpName; filename]) = Some e ->
  fst (main host w) = 1 /\
  is_Some (fs (snd (main host w)) !! tmpName) /\
  fs (snd (main host w)) !! tmpName = fs w2 !! tmpName /\
  stderr (snd (main host w)) = stderr w3 +:+ ("Error: " +:+ error_Error e +:+ nl).
Proof.
  intros Ht Hr Hw Hd Hy Hcp.
  rewrite (main_after_staging host _ _ _ _ _ _ _ _ Ht Hr Hw Hd).
  rewrite (accepted_false host Hy).
  destruct (staged_fs host _ _ _ _ _ _ _ _ Hr Hw Hd) as [F _].
  destruct (writeTempFile_Return host _ _ _ _ _ Hw) as (_ & F2 & _).
  destruct (cp_Run_fault host tmpName filename (prompted diffOut w3) e Hcp)
    as (w4 & C & Fc & Ec).
  unfold apply_update. rewrite (orDie_Failed_eq _ _ _ _ _ C).
  cbn [fst snd fmt_Eprintf fs stderr]. rewrite Fc, F, F2, Ec.
  rewrite !lookup_insert_eq. repeat split. eauto.
Qed.

Lemma main_copy_failure_witness :
  fst (main cpFailsHost (demoWorld (regular staleDoc))) = 1 /\
  is_Some (fs (snd (main cpFailsHost (demoWorld (regular staleDoc)))) !! "/tmp/readup1") /\
  fs (snd (main cpFailsHost (demoWorld (regular staleDoc)))) !! "/tmp/readup1"
    = fs (snd (writeTempFile cpFailsHost "README.md" freshDoc
                 (snd (readup cpFailsHost "README.md" (demoWorld (regular staleDoc))))))
        !! "/tmp/readup1" /\
  stderr (snd (main cpFailsHost (demoWorld (regular staleDoc)))) =
    stderr (snd (execCommand cpFailsHost ["diff"; "-u"; "README.md"; "/tmp/readup1"] false
                   (snd (writeTempFile cpFailsHost "README.md" freshDoc
                           (snd (readup cpFailsHost "README.md"
                                   (demoWorld (regular staleDoc))))))))
      +:+ ("Error: " +:+ error_Error (errors_New "exit status 1") +:+ nl).
Proof.
  apply (main_copy_failure cpFailsHost (demoWorld (regular staleDoc))
           "README.md" freshDoc
           (snd (readup cpFailsHost "README.md" (demoWorld (regular staleDoc))))
           "/tmp/readup1"
           (snd (writeTempFile cpFailsHost "README.md" freshDoc
                   (snd (readup cpFailsHost "README.md" (demoWorld (regular staleDoc))))))
           EmptyString
           (snd (execCommand cpFailsHost ["diff"; "-u"; "README.md"; "/tmp/readup1"] false
                   (snd (writeTempFile cpFailsHost "README.md" freshDoc
                           (snd (readup cpFailsHost "README.md"
                                   (demoWorld (regular staleDoc))))))))
           (errors_New "exit status 1"));
    reflexivity.
Defined.



(** X16. No step of [main] panics, on any host and in any world:
    [os.Args[1]] is read only when there are two arguments, the scan
    indexes and slices in range on every document, the command line of
    [diff] is not empty, and staging, copying and removing index
    nothing.  So [main] never leaves with the status 2 of a Go panic.
    Whether a run comes to an end is not part of this: a child here
    has a finite list of reads, while the read loop of [execCommand]
    goes on for as long as the child's terminal brings bytes. *)
Theorem main_no_panic host w :
  (forall msg, fst (targetFile host w) <> Panicked msg) /\
  (forall filename w' msg, fst (readup host filename w') <> Panicked msg) /\
  (forall filename content w' msg,
     fst (writeTempFile host filename content w') <> Panicked msg) /\
  (forall filename tmpName w' msg,
     fst (execCommand host ["diff"; "-u"; filename; tmpName] false w') <> Panicked msg) /\
  (forall tmpName filename w' msg, fst (cp_Run host tmpName filename w') <> Panicked msg) /\
  (forall tmpName w' msg, fst (os_Remove host tmpName w') <> Panicked msg) /\
  fst (main host w) <> 2.
Proof.
  assert (T : forall msg, fst (targetFile host w) <> Panicked msg).
  { intros msg. destruct (targetFile_total host) as [f Hf]. now rewrite Hf. }
  assert (D : forall filename tmpName w' msg,
            fst (execCommand host ["diff"; "-u"; filename; tmpName] false w')
              <> Panicked msg).
  { intros filename tmpName w' msg. rewrite execCommand_fst. apply ptyResult_no_panic. }
  repeat split; try assumption.
  - intros filename w' msg. apply readup_no_panic.
  - intros filename content w' msg. apply writeTempFile_no_panic.
  - intros tmpName filename w' msg. apply cp_Run_no_panic.
  - intros tmpName w' msg. apply os_Remove_no_panic.
  - assert (S : fst (main host w) = 0 \/ fst (main host w) = 1); [| lia].
    unfold main.
    apply orDie_status; [exact T |].
    intros filename wa. apply orDie_status; [intros msg; apply readup_no_panic |].
    intros content wb. apply orDie_status; [intros msg; apply writeTempFile_no_panic |].
    intros tmpName wc. apply orDie_status; [intros msg; apply D |].
    intros diffOut wd. apply orDie_status; [discriminate |].
    intros _ we. apply orDie_status; [discriminate |].
    intros _ wf. destruct (declined host); [now left |].
    apply orDie_status; [intros msg; apply cp_Run_no_panic |].
    intros _ wg. apply orDie_status; [intros msg; apply os_Remove_no_panic |].
    intros _ wh. now left.
Qed.

Lemma lower_y c : strings.lower c = "y"%char -> c = "y"%char \/ c = "Y"%char.
Proof.
  destruct c as [[] [] [] [] [] [] [] []]; vm_compute; intros H;
    try discriminate H; auto.
Qed.

Lemma ToLower_y s : strings.ToLower s = "y" <-> s = "y" \/ s = "Y".
Proof.
  split.
  - destruct s as [| c [| c' s']]; cbn [strings.ToLower]; try discriminate.
    intros [= H]. destruct (lower_y c H) as [-> | ->]; auto.
  - intros [-> | ->]; reflexivity.
Qed.

(** X17. The answer that applies the update.  The first line of
    standard input, with the white space around it taken off, must be
    "y" or "Y": everything else, "yes" and the empty line among it,
    declines. *)
Theorem answer_accepts host :
  declined host = false <->
  strings.TrimSpace (bufio.ReadString (os_Stdin host) LF) = "y" \/
  strings.TrimSpace (bufio.ReadString (os_Stdin host) LF) = "Y".
Proof.
  unfold declined. rewrite <- ToLower_y, Bool.negb_false_iff. apply String.eqb_eq.
Qed.

(** X18. [writeTempFile] creates one file and touches no other.  On
    success the file it names did not exist before and exists
    afterwards, every file that existed is as it was, nothing is
    printed and no command is asked for; when no temporary file can be
    created it returns the error and changes nothing.  Its first
    argument plays no part.  Nothing is said of what the new file
    holds: the source drops the result of the write (line 176).  The
    assumption on the host: [ioutil.TempFile] creates a file that did
    not exist. *)
Theorem writeTempFile_frame host filename content w :
  (forall m name, temp_name host m = Ok name -> m !! name = None) ->
  match writeTempFile host filename content w with
  | (Return tmpName, w') =>
      fs w !! tmpName = None /\
      is_Some (fs w' !! tmpName) /\
      (forall p f, fs w !! p = Some f -> fs w' !! p = Some f) /\
      (forall p, p <> tmpName -> fs w' !! p = fs w !! p) /\
      stdout w' = stdout w /\ stderr w' = stderr w /\ spawned w' = spawned w
  | (Failed e, w') => w' = w /\ temp_name host (fs w) = Err e
  | (Panicked _, _) => False
  end /\
  (forall other, writeTempFile host other content w = writeTempFile host filename content w).
Proof.
  intros Hfresh. split; [| reflexivity].
  unfold writeTempFile, ioutil_TempFile, bind.
  destruct (temp_name host (fs w)) as [name | e] eqn:T; [| now split].
  apply Hfresh in T. cbn. rewrite insert_insert_eq.
  repeat split; try assumption.
  - rewrite lookup_insert_eq. eauto.
  - intros p f Hp. rewrite lookup_insert_ne by congruence. exact Hp.
  - intros p Hp. now rewrite lookup_insert_ne.
Qed.

Lemma writeTempFile_frame_witness :
  match writeTempFile (demoHost EmptyString) "README.md" freshDoc
          (demoWorld (regular staleDoc)) with
  | (Return tmpName, w') =>
      fs (demoWorld (regular staleDoc)) !! tmpName = None /\
      is_Some (fs w' !! tmpName) /\
      (forall p f, fs (demoWorld (regular staleDoc)) !! p = Some f -> fs w' !! p = Some f) /\
      (forall p, p <> tmpName -> fs w' !! p = fs (demoWorld (regular staleDoc)) !! p) /\
      stdout w' = stdout (demoWorld (regular staleDoc)) /\
      stderr w' = stderr (demoWorld (regular staleDoc)) /\
      spawned w' = spawned (demoWorld (regular staleDoc))
  | (Failed e, w') =>
      w' = demoWorld (regular staleDoc) /\
      temp_name (demoHost EmptyString) (fs (demoWorld (regular staleDoc))) = Err e
  | (Panicked _, _) => False
  end /\
  (forall other,
     writeTempFile (demoHost EmptyString) other freshDoc (demoWorld (regular staleDoc)) =
     writeTempFile (demoHost EmptyString) "README.md" freshDoc (demoWorld (regular staleDoc))).
Proof.
  apply (writeTempFile_frame (demoHost EmptyString) "README.md" freshDoc
           (demoWorld (regular staleDoc))).
  exact demo_temp_fresh.
Defined.

(** X19. Every call of [execCommand] with a program name calls
    [pty.StartWithSize] exactly once, whatever comes of the call: the
    command it hands over has the program [cmd[0]], the arguments are
    the rest of [cmd], the environment is that of the parent with
    [PATH] set once more at its end.  This counts the call, not a
    process: when no pseudo-terminal can be had or the command cannot
    be started, the call was made and [execCommand] returns its error.
    The call changes no file and writes nothing to standard error. *)
Theorem execCommand_one_request host name args print w :
  exists command,
    spawned (snd (execCommand host (name :: args) print w)) = spawned w ++ [command] /\
    Path command = name /\
    Args command = name :: args /\
    Env command = os_Environ host ++ ["PATH=" +:+ os_Getenv host "PATH"] /\
    (forall e, allocationFails host command e \/ startFails host command e ->
       fst (execCommand host (name :: args) print w) = Failed e) /\
    fs (snd (execCommand host (name :: args) print w)) = fs w /\
    stderr (snd (execCommand host (name :: args) print w)) = stderr w.
Proof.
  exists (commandFor host name args).
  destruct (execCommand_world host name args print w) as (S & F & E).
  repeat split; try assumption.
  intros e H. rewrite execCommand_fst. unfold ptyResult.
  destruct H as [A | [O St]].
  - unfold allocationFails in A. now rewrite A.
  - now rewrite O, St.
Qed.

(** X20. [readup] on any document that can be opened: the lines of the
    file are cut into text lines, closed blocks and at most one open
    block at the end; the segments are rendered one after the other (an
    eligible block by running its command, which may fail and end the
    scan, every other segment as it is) and the lines obtained are
    joined with newlines. *)
Theorem readup_by_segments host filename file w :
  fs w !! filename = Some file ->
  readup host filename w =
    (ls <- renderAll host (segments (fst (bufio.Scan file)) None) ;;
     ret (strings.Join ls nl)) w /\
  concat (flatten <$> segments (fst (bufio.Scan file)) None) = fst (bufio.Scan file) /\
  wfSegs (segments (fst (bufio.Scan file)) None).
Proof.
  intros H. split; [now apply readup_segments | split].
  - apply (flatten_segments _ None).
  - now apply (segments_wf _ None).
Qed.

Lemma readup_by_segments_witness :
  readup (demoHost EmptyString) "README.md" (demoWorld (regular staleDoc)) =
    (ls <- renderAll (demoHost EmptyString)
             (segments (fst (bufio.Scan (regular staleDoc))) None) ;;
     ret (strings.Join ls nl)) (demoWorld (regular staleDoc)) /\
  concat (flatten <$> segments (fst (bufio.Scan (regular staleDoc))) None)
    = fst (bufio.Scan (regular staleDoc)) /\
  wfSegs (segments (fst (bufio.Scan (regular staleDoc))) None).
Proof.
  apply (readup_by_segments (demoHost EmptyString) "README.md" (regular staleDoc)
           (demoWorld (regular staleDoc))).
  reflexivity.
Defined.


